(** * F1 reaction game: the timing and state core

    A shallow embedding of the deterministic core of the game:
    [CarManager] (shared/types/car.ts), [TrackManager] (shared/types/track.ts),
    the configuration validators (shared/validation/*.ts) and the input
    handling of the [useGameState] hook (client/hooks/useGameState.ts).

    JavaScript numbers are modelled as exact rationals [Q]; every comparison
    of the source is the corresponding comparison on [Q], and [===] on numbers
    is [Qeq].  Rounding of IEEE doubles, NaN and the infinities are outside
    the model.  Each call of [performance.now()] is an explicit argument of
    the function that makes it. *)

From Stdlib Require Import Arith ZArith QArith Qabs Qround Lqa Lia List Bool SetoidList.
Import ListNotations.

Local Open Scope Q_scope.

(** ** JavaScript arithmetic helpers *)

Definition Qltb (a b : Q) : bool := negb (Qle_bool b a).

(** [Math.max(a, b)] and [Math.min(a, b)] on finite numbers. *)
Definition Math_max (a b : Q) : Q := if Qle_bool a b then b else a.
Definition Math_min (a b : Q) : Q := if Qle_bool a b then a else b.

(** ** Data model (shared/types/game.ts) *)

Inductive ModifierType := increase | decrease.

Record SpeedModifier := {
  mtype : ModifierType;
  amount : Q;
  startTime : Q;
  mduration : Q
}.

Record Car := {
  distanceCovered : Q;
  currentSpeed : Q;
  baseSpeed : Q;
  speedModifiers : list SpeedModifier
}.

Record Track := {
  distance : Q;
  averageSpeed : Q;
  raceTime : option Q;
  brakePoints : list Q;
  straightPoints : list Q;
  speedIncrease : Q;
  pointDuration : Q;
  speedDecrease : Q
}.

Inductive CheckpointType := brake_point | straight_point.

Record CheckpointEvent := {
  ctype : CheckpointType;
  cdistance : Q;
  activatedAt : Q;
  duration : Q
}.

Record ControlState := {
  isActive : bool;
  csActivatedAt : Q;
  csDuration : Q
}.

Inductive ControlType := brake | acceleration.

Inductive GameStatus := idle | running | finished.

(** ** CarManager (shared/types/car.ts)

    The manager owns one [Car]; each method is a function on that car.  The
    clock readings taken inside a method are passed in. *)

Module CarManager.

(** [updatePosition(deltaTime, trackDistance)]. *)
Definition updatePosition (deltaTime trackDistance : Q) (car : Car) : Car :=
  let deltaTimeSeconds := deltaTime / 1000 in
  let distanceIncrement := currentSpeed car * deltaTimeSeconds in
  {| distanceCovered :=
       Math_min (distanceCovered car + distanceIncrement) trackDistance;
     currentSpeed := currentSpeed car;
     baseSpeed := baseSpeed car;
     speedModifiers := speedModifiers car |}.

(** The predicate of the [filter] in [updateCurrentSpeed]. *)
Definition unexpired (currentTime : Q) (m : SpeedModifier) : bool :=
  Qltb (currentTime - startTime m) (mduration m).

(** One iteration of the [for] loop of [updateCurrentSpeed]. *)
Definition applyModifier (speed : Q) (m : SpeedModifier) : Q :=
  match mtype m with
  | increase => speed + amount m
  | decrease => Math_max 0 (speed - amount m)
  end.

(** [updateCurrentSpeed()], with [currentTime] its [performance.now()]. *)
Definition updateCurrentSpeed (currentTime : Q) (car : Car) : Car :=
  let kept := filter (unexpired currentTime) (speedModifiers car) in
  {| distanceCovered := distanceCovered car;
     currentSpeed := fold_left applyModifier kept (baseSpeed car);
     baseSpeed := baseSpeed car;
     speedModifiers := kept |}.

(** [addSpeedModifier(type, amount, duration)]: [tStart] is the clock
    reading stored in the modifier, [tUpdate] the later reading made by
    the call of [updateCurrentSpeed]. *)
Definition addSpeedModifier (ty : ModifierType) (amt dur : Q)
    (tStart tUpdate : Q) (car : Car) : Car :=
  let modifier :=
    {| mtype := ty; amount := amt; startTime := tStart; mduration := dur |} in
  updateCurrentSpeed tUpdate
    {| distanceCovered := distanceCovered car;
       currentSpeed := currentSpeed car;
       baseSpeed := baseSpeed car;
       speedModifiers := speedModifiers car ++ [modifier] |}.

Definition isRaceComplete (trackDistance : Q) (car : Car) : bool :=
  Qle_bool trackDistance (distanceCovered car).

Definition reset (base : Q) : Car :=
  {| distanceCovered := 0;
     currentSpeed := base;
     baseSpeed := base;
     speedModifiers := [] |}.

(** The methods that change the car, as a command language. *)
Inductive Op :=
| OpUpdatePosition (deltaTime trackDistance : Q)
| OpAddSpeedModifier (ty : ModifierType) (amt dur tStart tUpdate : Q)
| OpUpdateCurrentSpeed (currentTime : Q)
| OpReset (base : Q).

Definition step (car : Car) (op : Op) : Car :=
  match op with
  | OpUpdatePosition dt td => updatePosition dt td car
  | OpAddSpeedModifier ty a d t1 t2 => addSpeedModifier ty a d t1 t2 car
  | OpUpdateCurrentSpeed t => updateCurrentSpeed t car
  | OpReset b => reset b
  end.

Definition run (ops : list Op) (car : Car) : Car := fold_left step ops car.

(** Sums of the magnitudes of one type. *)
Definition sumOf (ty : ModifierType) (ms : list SpeedModifier) : Q :=
  fold_right (fun m acc =>
    match mtype m, ty with
    | increase, increase | decrease, decrease => amount m + acc
    | _, _ => acc
    end) 0 ms.

(** The speed as the specification words it: one floor on the total. *)
Definition specSpeed (currentTime : Q) (car : Car) : Q :=
  let kept := filter (unexpired currentTime) (speedModifiers car) in
  Math_max 0 (baseSpeed car + sumOf increase kept - sumOf decrease kept).

Definition isIncrease (m : SpeedModifier) : Prop := mtype m = increase.
Definition isDecrease (m : SpeedModifier) : Prop := mtype m = decrease.
Definition nonnegAmount (m : SpeedModifier) : Prop := 0 <= amount m.

(** A car whose speeds and magnitudes are not negative, as the callers of
    the manager build it. *)
Definition wellFormed (car : Car) : Prop :=
  0 <= baseSpeed car /\ 0 <= currentSpeed car
  /\ Forall nonnegAmount (speedModifiers car).

(** An operation whose magnitude or base speed is not negative. *)
Definition nonnegOp (op : Op) : Prop :=
  match op with
  | OpAddSpeedModifier _ amt _ _ _ => 0 <= amt
  | OpReset base => 0 <= base
  | _ => True
  end.

(** An operation of a race on a track of length [trackDistance]. *)
Definition onTrack (trackDistance : Q) (op : Op) : Prop :=
  match op with
  | OpUpdatePosition _ td => td == trackDistance
  | OpReset _ => 0 <= trackDistance
  | _ => True
  end.

(** The two cars of the order example: a decrease of 20 and an increase
    of 5 on a base speed of 10, in the two insertion orders. *)
Definition mkModifier (ty : ModifierType) (amt start dur : Q) : SpeedModifier :=
  {| mtype := ty; amount := amt; startTime := start; mduration := dur |}.

Definition decreaseFirst : Car :=
  {| distanceCovered := 0; currentSpeed := 10; baseSpeed := 10;
     speedModifiers :=
       [mkModifier decrease 20 0 1000; mkModifier increase 5 0 1000] |}.

Definition increaseFirst : Car :=
  {| distanceCovered := 0; currentSpeed := 10; baseSpeed := 10;
     speedModifiers :=
       [mkModifier increase 5 0 1000; mkModifier decrease 20 0 1000] |}.

(** [getProgressPercentage(trackDistance)]. *)
Definition getProgressPercentage (trackDistance : Q) (car : Car) : Q :=
  Math_min ((distanceCovered car / trackDistance) * 100) 100.

(** [getActiveModifiers()]. *)
Definition getActiveModifiers (currentTime : Q) (car : Car)
    : list SpeedModifier :=
  filter (unexpired currentTime) (speedModifiers car).


(** Arguments as the game passes them: positive magnitudes, durations and
    base speeds, times and deltas that are not negative. *)
Definition positiveOp (op : Op) : Prop :=
  match op with
  | OpUpdatePosition dt td => 0 <= dt /\ 0 <= td
  | OpAddSpeedModifier _ amt dur tStart _ => 0 < amt /\ 0 < dur /\ 0 <= tStart
  | OpUpdateCurrentSpeed _ => True
  | OpReset base => 0 < base
  end.

Definition positiveModifier (m : SpeedModifier) : Prop :=
  0 < amount m /\ 0 < mduration m /\ 0 <= startTime m.

End CarManager.

(** ** TrackManager (shared/types/track.ts)

    [activeCheckpoints] is a JavaScript [Map], which iterates in insertion
    order: an association list, oldest entry first.  [processedCheckpoints]
    is a [Set].  The string key [`brake_${point}`] is the pair of the
    checkpoint type and the number; two keys are the same string exactly
    when the types agree and the numbers are equal. *)

Module TrackManager.

Definition Key : Type := CheckpointType * Q.

Definition typeEqb (a b : CheckpointType) : bool :=
  match a, b with
  | brake_point, brake_point | straight_point, straight_point => true
  | _, _ => false
  end.

Definition keyEqb (a b : Key) : bool :=
  typeEqb (fst a) (fst b) && Qeq_bool (snd a) (snd b).

Definition Map_has (k : Key) (m : list (Key * CheckpointEvent)) : bool :=
  existsb (fun kv => keyEqb k (fst kv)) m.

(** [Map.prototype.set]: an existing key keeps its place. *)
Definition Map_set (k : Key) (v : CheckpointEvent)
    (m : list (Key * CheckpointEvent)) : list (Key * CheckpointEvent) :=
  if Map_has k m
  then map (fun kv => if keyEqb k (fst kv) then (fst kv, v) else kv) m
  else m ++ [(k, v)].

Definition Map_delete (k : Key) (m : list (Key * CheckpointEvent))
    : list (Key * CheckpointEvent) :=
  filter (fun kv => negb (keyEqb k (fst kv))) m.

Definition Set_has (k : Key) (s : list Key) : bool := existsb (keyEqb k) s.

Definition Set_add (k : Key) (s : list Key) : list Key :=
  if Set_has k s then s else s ++ [k].

Record t := {
  track : Track;
  activeCheckpoints : list (Key * CheckpointEvent);
  processedCheckpoints : list Key
}.

(** [new TrackManager(track)]. *)
Definition create (tr : Track) : t :=
  {| track := tr; activeCheckpoints := []; processedCheckpoints := [] |}.

(** The loop shared, up to the checkpoint type and the array it walks, by
    [checkBrakePoints] and [checkStraightPoints]: it returns from the first
    point that passes the test. *)
Fixpoint checkLoop (ty : CheckpointType) (points : list Q)
    (carDistance currentTime : Q) (tm : t) : option CheckpointEvent * t :=
  match points with
  | [] => (None, tm)
  | point :: rest =>
      let checkpointKey : Key := (ty, point) in
      if Qle_bool point carDistance
         && negb (Map_has checkpointKey (activeCheckpoints tm))
         && negb (Set_has checkpointKey (processedCheckpoints tm))
      then
        let event :=
          {| ctype := ty; cdistance := point; activatedAt := currentTime;
             duration := pointDuration (track tm) |} in
        (Some event,
         {| track := track tm;
            activeCheckpoints :=
              Map_set checkpointKey event (activeCheckpoints tm);
            processedCheckpoints :=
              Set_add checkpointKey (processedCheckpoints tm) |})
      else checkLoop ty rest carDistance currentTime tm
  end.

Definition checkBrakePoints (carDistance currentTime : Q) (tm : t)
    : option CheckpointEvent * t :=
  checkLoop brake_point (brakePoints (track tm)) carDistance currentTime tm.

Definition checkStraightPoints (carDistance currentTime : Q) (tm : t)
    : option CheckpointEvent * t :=
  checkLoop straight_point (straightPoints (track tm))
    carDistance currentTime tm.

Definition inactiveState : ControlState :=
  {| isActive := false; csActivatedAt := 0; csDuration := 0 |}.

Definition expired (currentTime : Q) (c : CheckpointEvent) : bool :=
  Qle_bool (duration c) (currentTime - activatedAt c).

(** Body of the second loop of [getControlStates]: a later entry of the
    same type overwrites the state written by an earlier one. *)
Definition setState (currentTime : Q) (st : ControlState * ControlState)
    (kv : Key * CheckpointEvent) : ControlState * ControlState :=
  let checkpoint := snd kv in
  if Qltb (currentTime - activatedAt checkpoint) (duration checkpoint) then
    let s := {| isActive := true;
                csActivatedAt := activatedAt checkpoint;
                csDuration := duration checkpoint |} in
    match ctype checkpoint with
    | brake_point => (s, snd st)
    | straight_point => (fst st, s)
    end
  else st.

(** [getControlStates(currentTime)]: the pair is (brake, acceleration). *)
Definition getControlStates (currentTime : Q) (tm : t)
    : (ControlState * ControlState) * t :=
  let expiredKeys :=
    map fst (filter (fun kv => expired currentTime (snd kv))
                    (activeCheckpoints tm)) in
  let remaining :=
    fold_left (fun m k => Map_delete k m) expiredKeys (activeCheckpoints tm) in
  (fold_left (setState currentTime) remaining (inactiveState, inactiveState),
   {| track := track tm;
      activeCheckpoints := remaining;
      processedCheckpoints := processedCheckpoints tm |}).

Definition checkpointTypeOf (controlType : ControlType) : CheckpointType :=
  match controlType with
  | brake => brake_point
  | acceleration => straight_point
  end.

(** The first entry, in insertion order, of the given type: the entry at
    which the loops of [getRemainingDuration] and [isControlActive] return. *)
Definition firstOfType (ty : CheckpointType)
    (m : list (Key * CheckpointEvent)) : option CheckpointEvent :=
  option_map snd (find (fun kv => typeEqb (ctype (snd kv)) ty) m).

Definition getRemainingDuration (controlType : ControlType)
    (currentTime : Q) (tm : t) : Q :=
  match firstOfType (checkpointTypeOf controlType) (activeCheckpoints tm) with
  | Some checkpoint =>
      let timeElapsed := currentTime - activatedAt checkpoint in
      Math_max 0 (duration checkpoint - timeElapsed)
  | None => 0
  end.

Definition isControlActive (controlType : ControlType)
    (currentTime : Q) (tm : t) : bool :=
  match firstOfType (checkpointTypeOf controlType) (activeCheckpoints tm) with
  | Some checkpoint =>
      Qltb (currentTime - activatedAt checkpoint) (duration checkpoint)
  | None => false
  end.

Definition reset (tm : t) : t :=
  {| track := track tm; activeCheckpoints := []; processedCheckpoints := [] |}.

Definition deactivateControl (controlType : ControlType) (tm : t) : t :=
  let checkpointType := checkpointTypeOf controlType in
  let keysToDelete :=
    map fst (filter (fun kv => typeEqb (ctype (snd kv)) checkpointType)
                    (activeCheckpoints tm)) in
  {| track := track tm;
     activeCheckpoints :=
       fold_left (fun m k => Map_delete k m) keysToDelete
                 (activeCheckpoints tm);
     processedCheckpoints := processedCheckpoints tm |}.

(** The calls of a race, as a command language; [run] collects the events
    the two check methods return. *)
Inductive Call :=
| CheckBrakePoints (carDistance currentTime : Q)
| CheckStraightPoints (carDistance currentTime : Q)
| GetControlStates (currentTime : Q)
| DeactivateControl (controlType : ControlType).

Definition call (c : Call) (tm : t) : option CheckpointEvent * t :=
  match c with
  | CheckBrakePoints d now => checkBrakePoints d now tm
  | CheckStraightPoints d now => checkStraightPoints d now tm
  | GetControlStates now => (None, snd (getControlStates now tm))
  | DeactivateControl k => (None, deactivateControl k tm)
  end.

Fixpoint run (cs : list Call) (tm : t) : list CheckpointEvent * t :=
  match cs with
  | [] => ([], tm)
  | c :: rest =>
      let (ev, tm1) := call c tm in
      let (evs, tm2) := run rest tm1 in
      (match ev with Some e => e :: evs | None => evs end, tm2)
  end.

Definition keyOf (e : CheckpointEvent) : Key := (ctype e, cdistance e).

(** A trigger is pending when its key is in neither collection. *)
Definition pending (k : Key) (tm : t) : bool :=
  negb (Map_has k (activeCheckpoints tm))
  && negb (Set_has k (processedCheckpoints tm)).

(** Two keys are the same string. *)
Definition keyEq (a b : Key) : Prop := fst a = fst b /\ snd a == snd b.

Definition pointsOf (ty : CheckpointType) (tr : Track) : list Q :=
  match ty with
  | brake_point => brakePoints tr
  | straight_point => straightPoints tr
  end.

(** The check method of a checkpoint type. *)
Definition check (ty : CheckpointType) (carDistance currentTime : Q) (tm : t)
    : option CheckpointEvent * t :=
  match ty with
  | brake_point => checkBrakePoints carDistance currentTime tm
  | straight_point => checkStraightPoints carDistance currentTime tm
  end.

(** A reached trigger that is still pending. *)
Definition qualifies (ty : CheckpointType) (carDistance : Q) (tm : t)
    (point : Q) : bool :=
  Qle_bool point carDistance && pending (ty, point) tm.

(** A track with two brake points 100 m apart and a 2000 ms window. *)
Definition closeBrakes : Track :=
  {| distance := 1000; averageSpeed := 50; raceTime := None;
     brakePoints := [100; 200]; straightPoints := [500];
     speedIncrease := 15; pointDuration := 2000; speedDecrease := 10 |}.

(** The car is at 250 m; the frame at time 0 fires the brake point at
    100 m, the frame at time 500 the one at 200 m. *)
Definition overlapped : t :=
  snd (run [CheckBrakePoints 250 0; GetControlStates 0;
            CheckBrakePoints 250 500; GetControlStates 500]
           (create closeBrakes)).

(** [updateTrack(newTrack)]. *)
Definition updateTrack (newTrack : Track) (tm : t) : t :=
  reset {| track := newTrack;
           activeCheckpoints := activeCheckpoints tm;
           processedCheckpoints := processedCheckpoints tm |}.

(** [getDebugInfo()]. *)
Definition getDebugInfo (tm : t) : list CheckpointEvent * nat :=
  (map snd (activeCheckpoints tm), length (activeCheckpoints tm)).

(** Every active entry sits under the key of its own event, with the
    window of the track, and no key occurs twice. *)
Definition wellKeyed (tm : t) : Prop :=
  Forall (fun kv => fst kv = keyOf (snd kv)
                    /\ duration (snd kv) = pointDuration (track tm)
                    /\ In (cdistance (snd kv))
                          (pointsOf (ctype (snd kv)) (track tm)))
         (activeCheckpoints tm)
  /\ NoDupA keyEq (map fst (activeCheckpoints tm)).

(** Successive calls of one check method at the same position. *)
Definition repeatCheck (ty : CheckpointType) (carDistance : Q)
    (times : list Q) (tm : t) : t :=
  fold_left (fun tm now => snd (check ty carDistance now tm)) times tm.

(** The brake control of [overlapped], with a straight point active too. *)
Definition bothKinds : t :=
  snd (run [CheckBrakePoints 600 0; CheckStraightPoints 600 0]
           (create closeBrakes)).

(** Every active key is a processed key. *)
Definition activeProcessed (tm : t) : Prop :=
  forall k, Map_has k (activeCheckpoints tm) = true ->
            Set_has k (processedCheckpoints tm) = true.

(** The other control. *)
Definition otherControl (k : ControlType) : ControlType :=
  match k with brake => acceleration | acceleration => brake end.

Definition stateOfControl (k : ControlType)
    (st : ControlState * ControlState) : ControlState :=
  match k with brake => fst st | acceleration => snd st end.

End TrackManager.

(** ** Validators (shared/validation/gameValidation.ts and
    shared/validation/checkpointValidation.ts)

    A validator either returns normally or throws; the thrown message is
    kept as a constructor that carries the interpolated number. *)

Module Validation.

Inductive ValidationError :=
| TrackDistanceMustBePositive
| AverageSpeedMustBePositive
| SpeedIncreaseMustBePositive
| SpeedDecreaseMustBePositive
| PointDurationMustBePositive
| BrakePointOutsideBounds (point : Q)
| StraightPointOutsideBounds (point : Q)
| BrakePointsMustBeSorted
| StraightPointsMustBeSorted
| DistanceCoveredNegative
| CurrentSpeedNegative
| BaseSpeedMustBePositive
| ModifierAmountMustBePositive
| ModifierDurationMustBePositive
| ModifierStartTimeNegative
| PointsArrayEmpty
| PointOutsideBounds (point : Q)
| PointsArrayContainsDuplicates
| PointsMustBeSorted.

Inductive Outcome :=
| Returns
| Throws (e : ValidationError).

Definition throwsb (o : Outcome) : bool :=
  match o with Returns => false | Throws _ => true end.

(** Sequencing of statements that may throw. *)
Definition andThen (o : Outcome) (k : Outcome) : Outcome :=
  match o with Returns => k | Throws e => Throws e end.

Definition throwIf (c : bool) (e : ValidationError) : Outcome :=
  if c then Throws e else Returns.

(** [[...a].sort((x, y) => x - y)]: the stable ascending sort. *)
Fixpoint insert (x : Q) (l : list Q) : list Q :=
  match l with
  | [] => [x]
  | y :: r => if Qle_bool x y then x :: y :: r else y :: insert x r
  end.

Definition sort (l : list Q) : list Q := fold_right insert [] l.

(** [a.every((val, index) => val === b[index])], where an index past the
    end of [b] reads [undefined], which equals no number. *)
Fixpoint everyEqual (a b : list Q) : bool :=
  match a, b with
  | [], _ => true
  | x :: a', y :: b' => Qeq_bool x y && everyEqual a' b'
  | _ :: _, [] => false
  end.

Definition arraysEqual (a b : list Q) : bool :=
  if Nat.eqb (length a) (length b) then everyEqual a b else false.

(** The bounds loops: the first offending point is the one reported. *)
Fixpoint checkBounds (mk : Q -> ValidationError) (points : list Q)
    (trackDistance : Q) : Outcome :=
  match points with
  | [] => Returns
  | point :: rest =>
      if Qltb point 0 || Qle_bool trackDistance point
      then Throws (mk point)
      else checkBounds mk rest trackDistance
  end.

(** [validateTrack(track)]. *)
Definition validateTrack (track : Track) : Outcome :=
  andThen (throwIf (Qle_bool (distance track) 0) TrackDistanceMustBePositive)
 (andThen (throwIf (Qle_bool (averageSpeed track) 0) AverageSpeedMustBePositive)
 (andThen (throwIf (Qle_bool (speedIncrease track) 0) SpeedIncreaseMustBePositive)
 (andThen (throwIf (Qle_bool (speedDecrease track) 0) SpeedDecreaseMustBePositive)
 (andThen (throwIf (Qle_bool (pointDuration track) 0) PointDurationMustBePositive)
 (andThen (checkBounds BrakePointOutsideBounds (brakePoints track) (distance track))
 (andThen (checkBounds StraightPointOutsideBounds (straightPoints track) (distance track))
 (let sortedBrakePoints := sort (brakePoints track) in
  let sortedStraightPoints := sort (straightPoints track) in
  andThen (throwIf (negb (arraysEqual (brakePoints track) sortedBrakePoints))
                   BrakePointsMustBeSorted)
          (throwIf (negb (arraysEqual (straightPoints track) sortedStraightPoints))
                   StraightPointsMustBeSorted)))))))).

(** [Set.prototype.add] on numbers. *)
Definition addUnique (s : list Q) (x : Q) : list Q :=
  if existsb (Qeq_bool x) s then s else s ++ [x].

(** [new Set(checkpoints)], in insertion order. *)
Definition Set_of (l : list Q) : list Q := fold_left addUnique l [].

(** [validateCheckpointArray(checkpoints, trackDistance, checkpointType)];
    the checkpoint type only enters the message. *)
Definition validateCheckpointArray (checkpoints : list Q)
    (trackDistance : Q) : Outcome :=
  andThen (throwIf (Nat.eqb (length checkpoints) 0) PointsArrayEmpty)
 (andThen (checkBounds PointOutsideBounds checkpoints trackDistance)
 (let uniqueCheckpoints := Set_of checkpoints in
  andThen (throwIf (negb (Nat.eqb (length uniqueCheckpoints)
                                   (length checkpoints)))
                   PointsArrayContainsDuplicates)
 (let sortedCheckpoints := sort checkpoints in
  throwIf (negb (everyEqual checkpoints sortedCheckpoints))
          PointsMustBeSorted))).

(** The loop over the modifiers in [validateCar]. *)
Fixpoint checkModifiers (ms : list SpeedModifier) : Outcome :=
  match ms with
  | [] => Returns
  | modifier :: rest =>
      andThen (throwIf (Qle_bool (amount modifier) 0)
                       ModifierAmountMustBePositive)
     (andThen (throwIf (Qle_bool (mduration modifier) 0)
                       ModifierDurationMustBePositive)
     (andThen (throwIf (Qltb (startTime modifier) 0)
                       ModifierStartTimeNegative)
              (checkModifiers rest)))
  end.

(** [validateCar(car)]. *)
Definition validateCar (car : Car) : Outcome :=
  andThen (throwIf (Qltb (distanceCovered car) 0) DistanceCoveredNegative)
 (andThen (throwIf (Qltb (currentSpeed car) 0) CurrentSpeedNegative)
 (andThen (throwIf (Qle_bool (baseSpeed car) 0) BaseSpeedMustBePositive)
          (checkModifiers (speedModifiers car)))).

(** The invariant of the specification on one trigger array: every point
    strictly inside (0, distance), ascending, without duplicates. *)
Fixpoint strictlyAscending (l : list Q) : bool :=
  match l with
  | [] => true
  | x :: r =>
      match r with
      | [] => true
      | y :: _ => Qltb x y && strictlyAscending r
      end
  end.


(** What the bounds loops of the source accept: 0 <= point < distance. *)
Definition withinBounds (points : list Q) (trackDistance : Q) : bool :=
  forallb (fun p => Qle_bool 0 p && Qltb p trackDistance) points.

(** Ascending in the sense of the sort: equal neighbours allowed. *)
Fixpoint ascending (l : list Q) : bool :=
  match l with
  | [] => true
  | x :: r =>
      match r with
      | [] => true
      | y :: _ => Qle_bool x y && ascending r
      end
  end.

Definition positiveScalars (track : Track) : bool :=
  Qltb 0 (distance track) && Qltb 0 (averageSpeed track)
  && Qltb 0 (speedIncrease track) && Qltb 0 (speedDecrease track)
  && Qltb 0 (pointDuration track).

(** The default track with a brake point on the start line. *)
Definition startLineTrack : Track :=
  {| distance := 1000; averageSpeed := 50; raceTime := None;
     brakePoints := [0; 400; 700; 900];
     straightPoints := [100; 350; 600; 850];
     speedIncrease := 15; pointDuration := 2000; speedDecrease := 10 |}.

Definition defaultTrack : Track :=
  {| distance := 1000; averageSpeed := 50; raceTime := None;
     brakePoints := [200; 400; 700; 900];
     straightPoints := [100; 350; 600; 850];
     speedIncrease := 15; pointDuration := 2000; speedDecrease := 10 |}.

End Validation.

(** ** The useGameState hook (client/hooks/useGameState.ts)

    The hook owns the React state [gameState], the two managers, and the
    refs [inputCooldownRef] and [activePenaltiesRef].  A state updater passed
    to [setGameState] is run once, at the call.  A [setTimeout] callback
    waits in [pendingTimeouts] with the time from which it may run; the
    host runs due callbacks between two handlers ([runTimeouts]).  The race
    timer only supplies numbers to the hook, which are arguments here. *)

Module UseGameState.

Record GameState := {
  gsTrack : Track;
  gsCar : Car;
  gameStatus : GameStatus;
  activeControls : ControlState * ControlState;  (* brake, acceleration *)
  raceStartTime : option Q
}.

Record t := {
  config : Track;
  gameState : GameState;
  carManager : Car;
  trackManager : TrackManager.t;
  inputCooldown : Q * Q;                         (* brake, acceleration *)
  activePenalties : list ControlType;
  pendingTimeouts : list (Q * ControlType)
}.

Definition controlEqb (a b : ControlType) : bool :=
  match a, b with
  | brake, brake | acceleration, acceleration => true
  | _, _ => false
  end.

Definition ofControl {A} (k : ControlType) (p : A * A) : A :=
  match k with brake => fst p | acceleration => snd p end.

Definition setControl {A} (k : ControlType) (v : A) (p : A * A) : A * A :=
  match k with brake => (v, snd p) | acceleration => (fst p, v) end.

Definition Set_has (k : ControlType) (s : list ControlType) : bool :=
  existsb (controlEqb k) s.

Definition Set_add (k : ControlType) (s : list ControlType) :=
  if Set_has k s then s else s ++ [k].

Definition Set_delete (k : ControlType) (s : list ControlType) :=
  filter (fun x => negb (controlEqb k x)) s.

Definition isRunning (g : GameState) : bool :=
  match gameStatus g with running => true | _ => false end.

Definition createInitialGameState (cfg : Track) : GameState :=
  {| gsTrack :=
       {| distance := distance cfg; averageSpeed := averageSpeed cfg;
          raceTime := None; brakePoints := brakePoints cfg;
          straightPoints := straightPoints cfg;
          speedIncrease := speedIncrease cfg;
          pointDuration := pointDuration cfg;
          speedDecrease := speedDecrease cfg |};
     gsCar :=
       {| distanceCovered := 0; currentSpeed := averageSpeed cfg;
          baseSpeed := averageSpeed cfg; speedModifiers := [] |};
     gameStatus := idle;
     activeControls := (TrackManager.inactiveState, TrackManager.inactiveState);
     raceStartTime := None |}.

(** The first render of the hook. *)
Definition mount (cfg : Track) : t :=
  {| config := cfg;
     gameState := createInitialGameState cfg;
     carManager := gsCar (createInitialGameState cfg);
     trackManager := TrackManager.create (gsTrack (createInitialGameState cfg));
     inputCooldown := (0, 0);
     activePenalties := [];
     pendingTimeouts := [] |}.

Definition withGameState (g : GameState) (h : t) : t :=
  {| config := config h; gameState := g; carManager := carManager h;
     trackManager := trackManager h; inputCooldown := inputCooldown h;
     activePenalties := activePenalties h;
     pendingTimeouts := pendingTimeouts h |}.

(** [startRace()]; [now] is the reading stored as [raceStartTime]. *)
Definition startRace (now : Q) (h : t) : t :=
  let initialState := createInitialGameState (config h) in
  {| config := config h;
     gameState :=
       {| gsTrack := gsTrack initialState; gsCar := gsCar initialState;
          gameStatus := running;
          activeControls := activeControls initialState;
          raceStartTime := Some now |};
     carManager := CarManager.reset (baseSpeed (gsCar initialState));
     trackManager := TrackManager.reset (trackManager h);
     inputCooldown := (0, 0);
     activePenalties := [];
     pendingTimeouts := pendingTimeouts h |}.

(** [resetGame()]. *)
Definition resetGame (h : t) : t :=
  let initialState := createInitialGameState (config h) in
  {| config := config h;
     gameState := initialState;
     carManager := CarManager.reset (baseSpeed (gsCar initialState));
     trackManager := TrackManager.reset (trackManager h);
     inputCooldown := (0, 0);
     activePenalties := [];
     pendingTimeouts := pendingTimeouts h |}.

(** The reaction bonus of the green branch. *)
Definition speedBonusFor (speedIncrease reactionTime : Q) : Q :=
  if Qle_bool reactionTime 200 then speedIncrease * 1.5
  else if Qle_bool reactionTime 500 then speedIncrease * 1.2
  else speedIncrease.

(** [handleControlInput(controlType)].  [currentTime] is the reading at
    entry, [tStart] and [tUpdate] the two readings inside
    [addSpeedModifier], [tTimer] the time of the [setTimeout] call. *)
Definition handleControlInput (controlType : ControlType)
    (currentTime tStart tUpdate tTimer : Q) (h : t) : t :=
  if Qltb (currentTime - ofControl controlType (inputCooldown h)) 100 then h
  else
    let prevState := gameState h in
    if negb (isRunning prevState) then h
    else if TrackManager.isControlActive controlType currentTime
              (trackManager h)
    then
      let remainingDuration :=
        TrackManager.getRemainingDuration controlType currentTime
          (trackManager h) in
      let reactionTime :=
        currentTime
        - csActivatedAt (ofControl controlType (activeControls prevState)) in
      let speedBonus :=
        speedBonusFor (speedIncrease (gsTrack prevState)) reactionTime in
      let preciseRemainingDuration := Math_max 0 remainingDuration in
      let cm :=
        CarManager.addSpeedModifier increase speedBonus
          preciseRemainingDuration tStart tUpdate (carManager h) in
      let tm := TrackManager.deactivateControl controlType (trackManager h) in
      let (updatedControlStates, tm') :=
        TrackManager.getControlStates currentTime tm in
      {| config := config h;
         gameState :=
           {| gsTrack := gsTrack prevState; gsCar := cm;
              gameStatus := gameStatus prevState;
              activeControls := updatedControlStates;
              raceStartTime := raceStartTime prevState |};
         carManager := cm;
         trackManager := tm';
         inputCooldown := setControl controlType currentTime (inputCooldown h);
         activePenalties := activePenalties h;
         pendingTimeouts := pendingTimeouts h |}
    else if negb (Set_has controlType (activePenalties h)) then
      let cm :=
        CarManager.addSpeedModifier decrease
          (speedDecrease (gsTrack prevState)) 1000 tStart tUpdate
          (carManager h) in
      {| config := config h;
         gameState :=
           {| gsTrack := gsTrack prevState; gsCar := cm;
              gameStatus := gameStatus prevState;
              activeControls := activeControls prevState;
              raceStartTime := raceStartTime prevState |};
         carManager := cm;
         trackManager := trackManager h;
         inputCooldown := setControl controlType currentTime (inputCooldown h);
         activePenalties := Set_add controlType (activePenalties h);
         pendingTimeouts :=
           pendingTimeouts h ++ [(tTimer + 1000, controlType)] |}
    else h.

(** The host runs every callback whose delay has passed at [now]. *)
Definition runTimeouts (now : Q) (h : t) : t :=
  let due := filter (fun p => Qle_bool (fst p) now) (pendingTimeouts h) in
  {| config := config h; gameState := gameState h;
     carManager := carManager h; trackManager := trackManager h;
     inputCooldown := inputCooldown h;
     activePenalties :=
       fold_left (fun s p => Set_delete (snd p) s) due (activePenalties h);
     pendingTimeouts :=
       filter (fun p => negb (Qle_bool (fst p) now)) (pendingTimeouts h) |}.

(** [updateCarPosition(deltaTime)]; [tUpdate] is the reading inside
    [updateCurrentSpeed], [timerReading] is [timer.getCurrentTime()]. *)
Definition updateCarPosition (deltaTime tUpdate timerReading : Q) (h : t) : t :=
  let prevState := gameState h in
  if negb (isRunning prevState) then h
  else
    let tr := gsTrack prevState in
    let cm :=
      CarManager.updateCurrentSpeed tUpdate
        (CarManager.updatePosition deltaTime (distance tr) (carManager h)) in
    let g :=
      if CarManager.isRaceComplete (distance tr) cm then
        {| gsTrack :=
             {| distance := distance tr; averageSpeed := averageSpeed tr;
                raceTime := Some timerReading;
                brakePoints := brakePoints tr;
                straightPoints := straightPoints tr;
                speedIncrease := speedIncrease tr;
                pointDuration := pointDuration tr;
                speedDecrease := speedDecrease tr |};
           gsCar := cm; gameStatus := finished;
           activeControls := activeControls prevState;
           raceStartTime := raceStartTime prevState |}
      else
        {| gsTrack := tr; gsCar := cm; gameStatus := gameStatus prevState;
           activeControls := activeControls prevState;
           raceStartTime := raceStartTime prevState |} in
    {| config := config h; gameState := g; carManager := cm;
       trackManager := trackManager h; inputCooldown := inputCooldown h;
       activePenalties := activePenalties h;
       pendingTimeouts := pendingTimeouts h |}.

(** [updateSpeedModifiers()]. *)
Definition updateSpeedModifiers (tUpdate : Q) (h : t) : t :=
  let prevState := gameState h in
  if negb (isRunning prevState) then h
  else
    let cm := CarManager.updateCurrentSpeed tUpdate (carManager h) in
    {| config := config h;
       gameState :=
         {| gsTrack := gsTrack prevState; gsCar := cm;
            gameStatus := gameStatus prevState;
            activeControls := activeControls prevState;
            raceStartTime := raceStartTime prevState |};
       carManager := cm;
       trackManager := trackManager h; inputCooldown := inputCooldown h;
       activePenalties := activePenalties h;
       pendingTimeouts := pendingTimeouts h |}.

Definition stateChanged (new old : ControlState) : bool :=
  negb (Bool.eqb (isActive new) (isActive old))
  || negb (Qeq_bool (csActivatedAt new) (csActivatedAt old)).

Definition isSome {A} (o : option A) : bool :=
  match o with Some _ => true | None => false end.

(** [updateControlStates()]. *)
Definition updateControlStates (currentTime : Q) (h : t) : t :=
  let prevState := gameState h in
  if negb (isRunning prevState) then h
  else
    let car := gsCar prevState in
    let (brakeEvent, tm1) :=
      TrackManager.checkBrakePoints (distanceCovered car) currentTime
        (trackManager h) in
    let (straightEvent, tm2) :=
      TrackManager.checkStraightPoints (distanceCovered car) currentTime tm1 in
    let (controlStates, tm3) := TrackManager.getControlStates currentTime tm2 in
    let brakeChanged :=
      stateChanged (fst controlStates) (fst (activeControls prevState)) in
    let accelerationChanged :=
      stateChanged (snd controlStates) (snd (activeControls prevState)) in
    let g :=
      if brakeChanged || accelerationChanged
         || isSome brakeEvent || isSome straightEvent
      then
        {| gsTrack := gsTrack prevState; gsCar := gsCar prevState;
           gameStatus := gameStatus prevState;
           activeControls := controlStates;
           raceStartTime := raceStartTime prevState |}
      else prevState in
    {| config := config h; gameState := g; carManager := carManager h;
       trackManager := tm3; inputCooldown := inputCooldown h;
       activePenalties := activePenalties h;
       pendingTimeouts := pendingTimeouts h |}.

(** What can happen during one race, in the order the host delivers it:
    a key or button press, one iteration of [gameLoop], a run of the due
    timeout callbacks. *)
Inductive Event :=
| Press (controlType : ControlType) (currentTime tStart tUpdate tTimer : Q)
| Frame (deltaTime tPosition timerReading tModifiers tControls : Q)
| Timeouts (now : Q).

Definition dispatch (h : t) (e : Event) : t :=
  match e with
  | Press k now t1 t2 t3 => handleControlInput k now t1 t2 t3 h
  | Frame dt tp tr tm tc =>
      updateControlStates tc
        (updateSpeedModifiers tm (updateCarPosition dt tp tr h))
  | Timeouts now => runTimeouts now h
  end.

Definition run (es : list Event) (h : t) : t := fold_left dispatch es h.

(** The entry clock reading of an event. *)
Definition timeOf (e : Event) : Q :=
  match e with
  | Press _ now _ _ _ => now
  | Frame _ tp _ _ _ => tp
  | Timeouts now => now
  end.


(** [restartRace()]: [resetGame()], then [startRace()] from a zero-delay
    timeout, run here at [now]. *)
Definition restartRace (now : Q) (h : t) : t := startRace now (resetGame h).

(** Every pending timeout belongs to a penalty still flagged, and no kind
    has two of them. *)
Definition timeoutsConsistent (h : t) : Prop :=
  NoDup (map snd (pendingTimeouts h))
  /\ (forall p, In p (pendingTimeouts h) ->
        Set_has (snd p) (activePenalties h) = true).

(** A race on the default track in which the brake is pressed on red at
    150 ms, the race is restarted at 500 ms and the brake is pressed on red
    again at 600 ms; the timeout of the first press runs at 1150 ms. *)
Definition afterStaleTimeout : t :=
  run [Press brake 600 600 600 600; Timeouts 1150]
      (restartRace 500
         (run [Press brake 150 150 150 150]
              (startRace 0 (mount Validation.defaultTrack)))).

(** The default race after one frame of 2000 ms: the car is at 100 m and
    the straight point there was activated at 2000 ms. *)
Definition atFirstStraight : t :=
  run [Frame 2000 2000 2000 2000 2000]
      (startRace 0 (mount Validation.defaultTrack)).

(** The penalty flag of [k] is set and no timeout of [k] may run before
    [limit]. *)
Definition flagHeld (k : ControlType) (limit : Q) (h : t) : Prop :=
  Set_has k (activePenalties h) = true
  /\ Forall (fun p => snd p = k -> limit <= fst p) (pendingTimeouts h).

(** The control state [getControlStates] writes for a checkpoint. *)
Definition stateOf (c : CheckpointEvent) : ControlState :=
  {| isActive := true; csActivatedAt := activatedAt c;
     csDuration := duration c |}.

(** The active checkpoints of one type, oldest first. *)
Definition activeOfType (ty : CheckpointType)
    (m : list (TrackManager.Key * CheckpointEvent)) : list CheckpointEvent :=
  filter (fun c => TrackManager.typeEqb (ctype c) ty) (map snd m).

(** An event with clock readings and deltas that are not negative. *)
Definition saneEvent (e : Event) : Prop :=
  match e with
  | Press _ _ tStart _ _ => 0 <= tStart
  | Frame deltaTime _ _ _ _ => 0 <= deltaTime
  | Timeouts _ => True
  end.



(** What a race keeps true of the hook. *)
Definition raceInvariant (h : t) : Prop :=
  Validation.validateTrack (gsTrack (gameState h)) = Validation.Returns
  /\ gsCar (gameState h) = carManager h
  /\ Validation.validateCar (carManager h) = Validation.Returns
  /\ distanceCovered (carManager h) <= distance (gsTrack (gameState h))
  /\ (gameStatus (gameState h) = idle
      <-> raceStartTime (gameState h) = None).


End UseGameState.

(** ** validateGameState (shared/validation/gameValidation.ts) *)

Module GameStateValidation.

Inductive GameStateError :=
| InvalidTrack (e : Validation.ValidationError)
| InvalidCar (e : Validation.ValidationError)
| CarBeyondTrack
| RunningWithoutStartTime
| IdleWithStartTime.

Inductive Result :=
| Returns
| Throws (e : GameStateError).

Definition andThen (r k : Result) : Result :=
  match r with Returns => k | Throws e => Throws e end.

Definition throwIf (c : bool) (e : GameStateError) : Result :=
  if c then Throws e else Returns.

Definition lift (wrap : Validation.ValidationError -> GameStateError)
    (o : Validation.Outcome) : Result :=
  match o with
  | Validation.Returns => Returns
  | Validation.Throws e => Throws (wrap e)
  end.

Definition isNull {A} (o : option A) : bool :=
  match o with None => true | Some _ => false end.

(** [validateGameState(gameState)]; the test on the status string cannot
    fail on a value of the type. *)
Definition validateGameState (gameState : UseGameState.GameState) : Result :=
  andThen (lift InvalidTrack
             (Validation.validateTrack (UseGameState.gsTrack gameState)))
 (andThen (lift InvalidCar
             (Validation.validateCar (UseGameState.gsCar gameState)))
 (andThen (throwIf (Qltb (distance (UseGameState.gsTrack gameState))
                         (distanceCovered (UseGameState.gsCar gameState)))
                   CarBeyondTrack)
 (andThen (throwIf (match UseGameState.gameStatus gameState with
                    | running => isNull (UseGameState.raceStartTime gameState)
                    | _ => false
                    end) RunningWithoutStartTime)
          (throwIf (match UseGameState.gameStatus gameState with
                    | idle =>
                        negb (isNull (UseGameState.raceStartTime gameState))
                    | _ => false
                    end) IdleWithStartTime)))).

End GameStateValidation.

(** ** GameTimer (shared/types/timer.ts)

    Every method that reads the clock takes the reading as [now]. *)

Module GameTimer.

Record t := {
  startTime : Q;
  lastFrameTime : Q;
  isRunning : bool;
  pausedTime : Q;
  totalPausedDuration : Q
}.

(** [new GameTimer()]. *)
Definition create : t :=
  {| startTime := 0; lastFrameTime := 0; isRunning := false;
     pausedTime := 0; totalPausedDuration := 0 |}.

(** [Math.round]: the nearest integer, halves upwards. *)
Definition Math_round (x : Q) : Q := inject_Z (Qfloor (x + (1 # 2))).

Definition start (now : Q) (tm : t) : t :=
  if negb (isRunning tm) then
    {| startTime := now - totalPausedDuration tm;
       lastFrameTime := now;
       isRunning := true;
       pausedTime := pausedTime tm;
       totalPausedDuration := totalPausedDuration tm |}
  else tm.

Definition stop (now : Q) (tm : t) : t :=
  if isRunning tm then
    {| startTime := startTime tm;
       lastFrameTime := lastFrameTime tm;
       isRunning := false;
       pausedTime := now;
       totalPausedDuration := totalPausedDuration tm |}
  else tm.

Definition reset (tm : t) : t := create.

Definition getCurrentTime (now : Q) (tm : t) : Q :=
  if negb (isRunning tm) then
    if Qltb 0 (pausedTime tm)
    then Math_round ((pausedTime tm - startTime tm) * 10) / 10
    else 0
  else
    let elapsed := now - startTime tm in
    Math_round (elapsed * 10) / 10.

Definition getDeltaTime (now : Q) (tm : t) : Q * t :=
  if negb (isRunning tm) then (0, tm)
  else
    let delta := now - lastFrameTime tm in
    let cappedDelta := Math_min delta 100 in
    (cappedDelta,
     {| startTime := startTime tm;
        lastFrameTime := now;
        isRunning := isRunning tm;
        pausedTime := pausedTime tm;
        totalPausedDuration := totalPausedDuration tm |}).

(** The deltas of successive frames read at [readings]. *)
Fixpoint deltas (readings : list Q) (tm : t) : list Q * t :=
  match readings with
  | [] => ([], tm)
  | now :: rest =>
      let (d, tm1) := getDeltaTime now tm in
      let (ds, tm2) := deltas rest tm1 in
      (d :: ds, tm2)
  end.

Definition total (l : list Q) : Q := fold_right Qplus 0 l.

(** Clock readings that do not go back, from [prev] on. *)
Fixpoint monotone (prev : Q) (readings : list Q) : Prop :=
  match readings with
  | [] => True
  | now :: rest => prev <= now /\ monotone now rest
  end.

(** Readings at most 100 ms apart. *)
Fixpoint closeTogether (prev : Q) (readings : list Q) : Prop :=
  match readings with
  | [] => True
  | now :: rest => now - prev <= 100 /\ closeTogether now rest
  end.

Inductive Op :=
| OpStart (now : Q)
| OpStop (now : Q)
| OpReset
| OpGetDeltaTime (now : Q).

Definition step (tm : t) (op : Op) : t :=
  match op with
  | OpStart now => start now tm
  | OpStop now => stop now tm
  | OpReset => reset tm
  | OpGetDeltaTime now => snd (getDeltaTime now tm)
  end.

Definition run (ops : list Op) (tm : t) : t := fold_left step ops tm.

End GameTimer.

(** ** Checkpoint timing helpers (shared/validation/checkpointValidation.ts) *)

Module CheckpointValidation.

Inductive CheckpointValidationError :=
| CheckpointDistanceNegative
| CheckpointActivationNegative
| CheckpointDurationMustBePositive
| ControlActivationNegative
| ControlDurationNegative
| ActiveControlWithoutTiming.

Inductive Result :=
| Returns
| Throws (e : CheckpointValidationError).

Definition andThen (r k : Result) : Result :=
  match r with Returns => k | Throws e => Throws e end.

Definition throwIf (c : bool) (e : CheckpointValidationError) : Result :=
  if c then Throws e else Returns.

(** [validateCheckpointEvent(event)]; the test on [event.type] cannot fail
    on a value of the type. *)
Definition validateCheckpointEvent (event : CheckpointEvent) : Result :=
  andThen (throwIf (Qltb (cdistance event) 0) CheckpointDistanceNegative)
 (andThen (throwIf (Qltb (activatedAt event) 0) CheckpointActivationNegative)
          (throwIf (Qle_bool (duration event) 0)
                   CheckpointDurationMustBePositive)).

(** [validateControlState(state)]. *)
Definition validateControlState (state : ControlState) : Result :=
  andThen (throwIf (Qltb (csActivatedAt state) 0) ControlActivationNegative)
 (andThen (throwIf (Qltb (csDuration state) 0) ControlDurationNegative)
          (throwIf (isActive state
                    && (Qeq_bool (csActivatedAt state) 0
                        || Qeq_bool (csDuration state) 0))
                   ActiveControlWithoutTiming)).

Inductive InputMethod := keyboard | touch.

Record PlayerInput := {
  inputType : ControlType;
  timestamp : Q;
  inputMethod : InputMethod
}.

Inductive TimingAccuracy := perfect | good | late | penalty.

Record InputTiming := {
  isValid : bool;
  reactionTime : Q;
  timingAccuracy : TimingAccuracy
}.

(** [validateInputTiming(input, checkpointEvent)]. *)
Definition validateInputTiming (input : PlayerInput)
    (checkpointEvent : option CheckpointEvent) : InputTiming :=
  match checkpointEvent with
  | None => {| isValid := false; reactionTime := 0; timingAccuracy := penalty |}
  | Some ev =>
      let reaction := timestamp input - activatedAt ev in
      if Qltb reaction 0 then
        {| isValid := false; reactionTime := Qabs reaction;
           timingAccuracy := penalty |}
      else if Qltb (duration ev) reaction then
        {| isValid := false; reactionTime := reaction;
           timingAccuracy := penalty |}
      else
        {| isValid := true; reactionTime := reaction;
           timingAccuracy :=
             if Qle_bool reaction 100 then perfect
             else if Qle_bool reaction 300 then good
             else late |}
  end.

Record SpeedModification := {
  smType : ModifierType;
  smAmount : Q;
  smDuration : Q
}.

(** [calculateSpeedModification(...)]. *)
Definition calculateSpeedModification (baseSpeedIncrease baseSpeedDecrease : Q)
    (accuracy : TimingAccuracy) (remainingDuration : Q) : SpeedModification :=
  match accuracy with
  | perfect => {| smType := increase; smAmount := baseSpeedIncrease * 1.2;
                  smDuration := remainingDuration |}
  | good => {| smType := increase; smAmount := baseSpeedIncrease;
               smDuration := remainingDuration |}
  | late => {| smType := increase; smAmount := baseSpeedIncrease * 0.8;
               smDuration := remainingDuration |}
  | penalty => {| smType := decrease; smAmount := baseSpeedDecrease;
                  smDuration := 1000 |}
  end.

(** [isInputWithinWindow(...)]. *)
Definition isInputWithinWindow
    (inputTimestamp checkpointActivatedAt checkpointDuration : Q) : bool :=
  let reaction := inputTimestamp - checkpointActivatedAt in
  Qle_bool 0 reaction && Qle_bool reaction checkpointDuration.

(** [getRemainingWindowTime(...)]. *)
Definition getRemainingWindowTime
    (currentTime checkpointActivatedAt checkpointDuration : Q) : Q :=
  let elapsed := currentTime - checkpointActivatedAt in
  Math_max 0 (checkpointDuration - elapsed).

(** [shouldActivateCheckpoint(carDistance, checkpointDistance, tolerance)];
    the default tolerance is 5. *)
Definition shouldActivateCheckpoint
    (carDistance checkpointDistance tolerance : Q) : bool :=
  Qle_bool (Qabs (carDistance - checkpointDistance)) tolerance.

Record PriorityPoint := {
  ppType : CheckpointType;
  ppDistance : Q;
  priority : Q
}.

Definition nearby (ty : CheckpointType) (carDistance : Q) (points : list Q)
    : list PriorityPoint :=
  filter (fun point => Qle_bool (priority point) 5)
    (map (fun d => {| ppType := ty; ppDistance := d;
                      priority := Qabs (carDistance - d) |}) points).

(** The callback of the [reduce]. *)
Definition closer (closest current : PriorityPoint) : PriorityPoint :=
  if Qltb (priority current) (priority closest) then current else closest.

(** [getCheckpointPriority(carDistance, brakePoints, straightPoints)]. *)
Definition getCheckpointPriority (carDistance : Q)
    (brakePoints straightPoints : list Q) : option PriorityPoint :=
  let nearbyBrakePoints := nearby brake_point carDistance brakePoints in
  let nearbyStraightPoints := nearby straight_point carDistance straightPoints in
  match nearbyBrakePoints ++ nearbyStraightPoints with
  | [] => None
  | first :: rest => Some (fold_left closer rest first)
  end.

(** The points of an array, as candidates of their type. *)
Definition candidates (carDistance : Q) (brakePoints straightPoints : list Q)
    : list PriorityPoint :=
  map (fun d => {| ppType := brake_point; ppDistance := d;
                   priority := Qabs (carDistance - d) |}) brakePoints
  ++ map (fun d => {| ppType := straight_point; ppDistance := d;
                      priority := Qabs (carDistance - d) |}) straightPoints.

End CheckpointValidation.

(** * Properties *)

(** ** Arithmetic helpers *)

Lemma Qltb_lt (a b : Q) : Qltb a b = true <-> a < b.
Proof.
  unfold Qltb. rewrite negb_true_iff.
  split; intro H.
  - apply Qnot_le_lt. intro Hle. apply Qle_bool_iff in Hle. congruence.
  - destruct (Qle_bool b a) eqn:E; [|reflexivity].
    apply Qle_bool_iff in E. lra.
Qed.

Lemma Qltb_ge (a b : Q) : Qltb a b = false <-> b <= a.
Proof.
  unfold Qltb. rewrite negb_false_iff. apply Qle_bool_iff.
Qed.

Lemma Qle_bool_false (a b : Q) : Qle_bool a b = false <-> b < a.
Proof.
  split; intro H.
  - apply Qnot_le_lt. intro Hle. apply Qle_bool_iff in Hle. congruence.
  - destruct (Qle_bool a b) eqn:E; [|reflexivity].
    apply Qle_bool_iff in E. lra.
Qed.

Lemma Math_max_spec (a b : Q) :
  (a <= b /\ Math_max a b = b) \/ (b < a /\ Math_max a b = a).
Proof.
  unfold Math_max. destruct (Qle_bool a b) eqn:E.
  - left. apply Qle_bool_iff in E. auto.
  - right. apply Qle_bool_false in E. auto.
Qed.

Lemma Math_min_spec (a b : Q) :
  (a <= b /\ Math_min a b = a) \/ (b < a /\ Math_min a b = b).
Proof.
  unfold Math_min. destruct (Qle_bool a b) eqn:E.
  - left. apply Qle_bool_iff in E. auto.
  - right. apply Qle_bool_false in E. auto.
Qed.

Ltac case_max a b :=
  let H := fresh "Hmax" in let E := fresh "Emax" in
  destruct (Math_max_spec a b) as [[H E]|[H E]]; rewrite ?E in *.

Ltac case_min a b :=
  let H := fresh "Hmin" in let E := fresh "Emin" in
  destruct (Math_min_spec a b) as [[H E]|[H E]]; rewrite ?E in *.

Lemma Math_max_lower (a b : Q) : a <= Math_max a b /\ b <= Math_max a b.
Proof. case_max a b; split; lra. Qed.

Lemma Math_min_upper (a b : Q) : Math_min a b <= a /\ Math_min a b <= b.
Proof. case_min a b; split; lra. Qed.

(** ** CarManager *)

Section CarFacts.
Import CarManager.

Lemma applyModifier_compat (m : SpeedModifier) (s s' : Q) :
  s == s' -> applyModifier s m == applyModifier s' m.
Proof.
  intro H. unfold applyModifier. destruct (mtype m).
  - lra.
  - case_max 0 (s - amount m); case_max 0 (s' - amount m); lra.
Qed.

Lemma fold_applyModifier_compat (ms : list SpeedModifier) :
  forall s s', s == s' ->
    fold_left applyModifier ms s == fold_left applyModifier ms s'.
Proof.
  induction ms as [|m ms IH]; intros s s' H; simpl.
  - exact H.
  - apply IH, applyModifier_compat, H.
Qed.

(** A floor can only raise the running value: the loop never ends below
    the unfloored total. *)
Lemma fold_applyModifier_lower (ms : list SpeedModifier) :
  forall s,
    s + sumOf increase ms - sumOf decrease ms
    <= fold_left applyModifier ms s.
Proof.
  induction ms as [|m ms IH]; intro s; simpl.
  - lra.
  - specialize (IH (applyModifier s m)).
    unfold applyModifier in *. destruct (mtype m).
    + lra.
    + pose proof (Math_max_lower 0 (s - amount m)) as [_ Hb]. lra.
Qed.

Lemma fold_applyModifier_nonneg (ms : list SpeedModifier) :
  forall s,
    0 <= s ->
    Forall (fun m => isIncrease m -> nonnegAmount m) ms ->
    0 <= fold_left applyModifier ms s.
Proof.
  induction ms as [|m ms IH]; intros s Hs Hall; simpl.
  - exact Hs.
  - inversion Hall as [|? ? Hm Hms]; subst.
    apply IH; [|exact Hms].
    unfold applyModifier. destruct (mtype m) eqn:E.
    + specialize (Hm E). unfold nonnegAmount in Hm. lra.
    + apply Math_max_lower.
Qed.

Lemma fold_increases (ms : list SpeedModifier) :
  forall s,
    Forall isIncrease ms ->
    fold_left applyModifier ms s == s + sumOf increase ms
    /\ sumOf decrease ms == 0.
Proof.
  induction ms as [|m ms IH]; intros s Hall; simpl.
  - split; lra.
  - inversion Hall as [|? ? Hm Hms]; subst.
    unfold isIncrease in Hm.
    destruct (IH (applyModifier s m) Hms) as [IH1 IH2].
    unfold applyModifier in *. rewrite Hm in *. split; lra.
Qed.

Lemma fold_decreases (ms : list SpeedModifier) :
  forall s,
    0 <= s ->
    Forall isDecrease ms ->
    Forall nonnegAmount ms ->
    fold_left applyModifier ms s == Math_max 0 (s - sumOf decrease ms)
    /\ sumOf increase ms == 0.
Proof.
  induction ms as [|m ms IH]; intros s Hs Hd Hn; simpl.
  - split; [case_max 0 (s - 0); lra | lra].
  - inversion Hd as [|? ? Hm Hms]; inversion Hn as [|? ? Ha Has]; subst.
    unfold isDecrease in Hm. unfold nonnegAmount in Ha.
    assert (Hs' : 0 <= applyModifier s m).
    { unfold applyModifier. rewrite Hm. apply Math_max_lower. }
    destruct (IH (applyModifier s m) Hs' Hms Has) as [IH1 IH2].
    assert (Hsum : 0 <= sumOf decrease ms).
    { clear - Has. induction ms as [|x xs IHx]; simpl; [lra|].
      inversion Has; subst. unfold nonnegAmount in *.
      destruct (mtype x); [auto | specialize (IHx ltac:(assumption)); lra]. }
    rewrite Hm. split; [|exact IH2].
    rewrite IH1. unfold applyModifier. rewrite Hm.
    case_max 0 (s - amount m);
      case_max 0 (s - amount m - sumOf decrease ms);
      case_max 0 (s - (amount m + sumOf decrease ms));
      try case_max 0 (0 - sumOf decrease ms); lra.
Qed.

Lemma sumOf_app (ty : ModifierType) (a b : list SpeedModifier) :
  sumOf ty (a ++ b) == sumOf ty a + sumOf ty b.
Proof.
  induction a as [|m a IH]; simpl; [lra|].
  destruct (mtype m), ty; lra.
Qed.

(** With the increases first, the floors of the decreases collapse into
    one floor on the total. *)
Lemma fold_increases_then_decreases (incs decs : list SpeedModifier) (s : Q) :
  0 <= s ->
  Forall isIncrease incs -> Forall isDecrease decs ->
  Forall nonnegAmount (incs ++ decs) ->
  fold_left applyModifier (incs ++ decs) s
  == Math_max 0 (s + sumOf increase (incs ++ decs)
                   - sumOf decrease (incs ++ decs)).
Proof.
  intros Hs Hi Hd Hn.
  apply Forall_app in Hn. destruct Hn as [Hni Hnd].
  rewrite fold_left_app.
  destruct (fold_increases incs s Hi) as [Ei Zi].
  assert (Hsi : 0 <= sumOf increase incs).
  { clear - Hni. induction incs as [|x xs IHx]; simpl; [lra|].
    inversion Hni; subst. unfold nonnegAmount in *.
    destruct (mtype x); [specialize (IHx ltac:(assumption)); lra | auto]. }
  assert (H0 : 0 <= s + sumOf increase incs) by lra.
  destruct (fold_decreases decs (s + sumOf increase incs) H0 Hd Hnd)
    as [Ed Zd].
  rewrite (fold_applyModifier_compat decs _ _ Ei), Ed.
  pose proof (sumOf_app increase incs decs).
  pose proof (sumOf_app decrease incs decs).
  case_max 0 (s + sumOf increase incs - sumOf decrease decs);
    case_max 0 (s + sumOf increase (incs ++ decs)
                  - sumOf decrease (incs ++ decs)); lra.
Qed.

End CarFacts.

Section CarClaims.
Import CarManager.

Lemma filter_unexpired_In (now : Q) (ms : list SpeedModifier) (m : SpeedModifier) :
  In m (filter (unexpired now) ms)
  <-> In m ms /\ now - startTime m < mduration m.
Proof.
  rewrite filter_In. unfold unexpired. rewrite Qltb_lt. reflexivity.
Qed.

(** C2, as stated, fails: a decrease applied before an increase is floored
    on its own, so base 10, decrease 20, increase 5 gives 5 and not
    max(0, 10 + 5 - 20) = 0; the other insertion order gives 0. *)
Lemma updateCurrentSpeed_order_counterexample :
  ~ (currentSpeed (updateCurrentSpeed 1 decreaseFirst)
     == specSpeed 1 decreaseFirst)
  /\ currentSpeed (updateCurrentSpeed 1 decreaseFirst) == 5
  /\ currentSpeed (updateCurrentSpeed 1 increaseFirst) == 0.
Proof.
  split; [|split]; vm_compute; congruence.
Qed.

(** C2 (amended): [updateCurrentSpeed] keeps exactly the modifiers with
    now - startTime < duration, in insertion order, and the current speed
    is the base speed run through them in that order, an increase adding
    its magnitude and a decrease subtracting it with a floor at 0 at that
    step.  The result is never below base + sum(increases) -
    sum(decreases), and it equals max(0, that total) when no kept increase
    follows a kept decrease (magnitudes and base speed not negative). *)
Theorem updateCurrentSpeed_floors_each_decrease (car : Car) (now : Q) :
  let kept := speedModifiers (updateCurrentSpeed now car) in
  (forall m, In m kept
             <-> In m (speedModifiers car) /\ now - startTime m < mduration m)
  /\ kept = filter (unexpired now) (speedModifiers car)
  /\ currentSpeed (updateCurrentSpeed now car)
     = fold_left applyModifier kept (baseSpeed car)
  /\ baseSpeed car + sumOf increase kept - sumOf decrease kept
     <= currentSpeed (updateCurrentSpeed now car)
  /\ (forall incs decs,
        kept = incs ++ decs ->
        Forall isIncrease incs -> Forall isDecrease decs ->
        Forall nonnegAmount kept -> 0 <= baseSpeed car ->
        currentSpeed (updateCurrentSpeed now car) == specSpeed now car).
Proof.
  simpl. split; [|split; [|split; [|split]]].
  - intro m. apply filter_unexpired_In.
  - reflexivity.
  - reflexivity.
  - apply fold_applyModifier_lower.
  - intros incs decs E Hi Hd Hn Hb. unfold specSpeed. rewrite E in *.
    apply fold_increases_then_decreases; assumption.
Qed.

Lemma updateCurrentSpeed_floors_each_decrease_witness :
  currentSpeed (updateCurrentSpeed 1 increaseFirst)
  == specSpeed 1 increaseFirst.
Proof.
  refine (proj2 (proj2 (proj2 (proj2
    (updateCurrentSpeed_floors_each_decrease increaseFirst 1))))
    [mkModifier increase 5 0 1000] [mkModifier decrease 20 0 1000]
    eq_refl _ _ _ _).
  - repeat constructor.
  - repeat constructor.
  - repeat constructor; unfold nonnegAmount; simpl; lra.
  - simpl; lra.
Defined.

(** C4: [updatePosition] sets the distance to the minimum of
    distanceCovered + currentSpeed * deltaMs / 1000 and trackDistance: the
    sum when it does not exceed the track, exactly trackDistance when it
    does, however large delta and speed are; and the distance stays at or
    below trackDistance through every later sequence of operations of the
    race. *)
Theorem updatePosition_clamps_to_track (car : Car) (deltaMs trackDistance : Q) :
  let target := distanceCovered car + currentSpeed car * (deltaMs / 1000) in
  let car' := updatePosition deltaMs trackDistance car in
  (target <= trackDistance -> distanceCovered car' == target)
  /\ (trackDistance <= target -> distanceCovered car' == trackDistance)
  /\ distanceCovered car' <= trackDistance
  /\ (forall ops, Forall (onTrack trackDistance) ops ->
        distanceCovered (run ops car') <= trackDistance).
Proof.
  cbv zeta.
  assert (Hone : forall c dt td, td == trackDistance ->
            distanceCovered (updatePosition dt td c) <= trackDistance).
  { intros c dt td Htd. unfold updatePosition. simpl.
    pose proof (Math_min_upper
      (distanceCovered c + currentSpeed c * (dt / 1000)) td). lra. }
  split; [|split; [|split]].
  - intro H. unfold updatePosition; simpl.
    case_min (distanceCovered car + currentSpeed car * (deltaMs / 1000))
             trackDistance; lra.
  - intro H. unfold updatePosition; simpl.
    case_min (distanceCovered car + currentSpeed car * (deltaMs / 1000))
             trackDistance; lra.
  - apply Hone. reflexivity.
  - intros ops Hops.
    assert (Hinit : distanceCovered (updatePosition deltaMs trackDistance car)
                    <= trackDistance) by (apply Hone; reflexivity).
    revert Hinit. generalize (updatePosition deltaMs trackDistance car).
    induction Hops as [|op ops Hop Hops IH]; intros c Hc; simpl.
    + exact Hc.
    + apply IH. destruct op; simpl in *.
      * apply Hone, Hop.
      * exact Hc.
      * exact Hc.
      * exact Hop.
Qed.

Lemma updatePosition_clamps_to_track_witness :
  distanceCovered
    (run [OpUpdateCurrentSpeed 5; OpUpdatePosition 100 1000]
         (updatePosition 1000000 1000 (reset 50))) <= 1000
  /\ distanceCovered (updatePosition 1000000 1000 (reset 50)) == 1000.
Proof.
  split.
  - apply (updatePosition_clamps_to_track (reset 50) 1000000 1000).
    repeat constructor; simpl; reflexivity.
  - apply (proj1 (proj2
      (updatePosition_clamps_to_track (reset 50) 1000000 1000))).
    vm_compute. discriminate.
Defined.

Lemma wellFormed_step (car : Car) (op : Op) :
  wellFormed car -> nonnegOp op -> wellFormed (step car op).
Proof.
  intros (Hb & Hs & Hm) Hop. destruct op; simpl in *.
  - repeat split; assumption.
  - assert (Hall : Forall nonnegAmount
              (filter (unexpired tUpdate)
                 (speedModifiers car
                  ++ [{| mtype := ty; amount := amt; startTime := tStart;
                         mduration := dur |}]))).
    { apply Forall_forall. intros m Hin. apply filter_In in Hin.
      destruct Hin as [Hin _]. apply in_app_or in Hin.
      destruct Hin as [Hin|[<-|[]]].
      - rewrite Forall_forall in Hm. auto.
      - exact Hop. }
    repeat split; simpl; [assumption| |assumption].
    apply fold_applyModifier_nonneg; [assumption|].
    eapply Forall_impl; [|exact Hall]. auto.
  - assert (Hall : Forall nonnegAmount
              (filter (unexpired currentTime) (speedModifiers car))).
    { apply Forall_forall. intros m Hin. apply filter_In in Hin.
      rewrite Forall_forall in Hm. apply Hm, Hin. }
    repeat split; simpl; [assumption| |assumption].
    apply fold_applyModifier_nonneg; [assumption|].
    eapply Forall_impl; [|exact Hall]. auto.
  - repeat split; simpl; auto.
Qed.

Lemma wellFormed_run (ops : list Op) :
  forall car, wellFormed car -> Forall nonnegOp ops -> wellFormed (run ops car).
Proof.
  induction ops as [|op ops IH]; intros car Hw Hops; simpl.
  - exact Hw.
  - inversion Hops; subst. apply IH; [|assumption].
    apply wellFormed_step; assumption.
Qed.

(** C7, as stated, fails in its second half: decreases of total 20 exceed
    base 10 plus the increase 5, yet the recomputed speed is 5, because
    the decrease was floored before the increase was added.  And an
    increase of negative magnitude, which [addSpeedModifier] accepts, takes
    the speed below 0. *)
Lemma recompute_not_zero_counterexample :
  baseSpeed decreaseFirst + sumOf increase (speedModifiers decreaseFirst)
  < sumOf decrease (speedModifiers decreaseFirst)
  /\ ~ (currentSpeed (updateCurrentSpeed 1 decreaseFirst) == 0)
  /\ currentSpeed (addSpeedModifier increase (-60) 1000 0 0 (reset 50)) < 0.
Proof.
  split; [|split]; vm_compute; congruence.
Qed.

(** C7 (amended): from a car whose base speed, current speed and
    magnitudes are not negative, the current speed is not negative after
    any sequence of [updatePosition], [addSpeedModifier] (magnitude not
    negative), [updateCurrentSpeed] and [reset] (base not negative); and
    when no kept increase follows a kept decrease and the kept decreases
    sum to at least base plus the kept increases, [updateCurrentSpeed]
    yields exactly 0. *)
Theorem currentSpeed_never_negative (car : Car) :
  wellFormed car ->
  (forall ops, Forall nonnegOp ops -> 0 <= currentSpeed (run ops car))
  /\ (forall now incs decs,
        filter (unexpired now) (speedModifiers car) = incs ++ decs ->
        Forall isIncrease incs -> Forall isDecrease decs ->
        baseSpeed car + sumOf increase incs <= sumOf decrease decs ->
        currentSpeed (updateCurrentSpeed now car) == 0).
Proof.
  intro Hw. split.
  - intros ops Hops. apply (wellFormed_run ops car Hw Hops).
  - intros now incs decs E Hi Hd Hsum.
    destruct Hw as (Hb & _ & Hm).
    assert (Hn : Forall nonnegAmount (incs ++ decs)).
    { rewrite <- E. apply Forall_forall. intros m Hin.
      apply filter_In in Hin. rewrite Forall_forall in Hm. apply Hm, Hin. }
    simpl. rewrite E.
    rewrite (fold_increases_then_decreases incs decs _ Hb Hi Hd Hn).
    pose proof (sumOf_app increase incs decs) as Ha.
    pose proof (sumOf_app decrease incs decs) as Hb'.
    destruct (fold_increases incs 0 Hi) as [_ Zi].
    apply Forall_app in Hn. destruct Hn as [Hni Hnd].
    destruct (fold_decreases decs 0 ltac:(lra) Hd Hnd) as [_ Zd].
    case_max 0 (baseSpeed car + sumOf increase (incs ++ decs)
                  - sumOf decrease (incs ++ decs)); lra.
Qed.

Lemma currentSpeed_never_negative_witness :
  0 <= currentSpeed
         (run [OpAddSpeedModifier decrease 100 1000 2 2; OpUpdatePosition 16 1000]
              increaseFirst)
  /\ currentSpeed (updateCurrentSpeed 1 increaseFirst) == 0.
Proof.
  assert (Hw : wellFormed increaseFirst).
  { repeat split; simpl; try lra.
    repeat constructor; unfold nonnegAmount; simpl; lra. }
  split.
  - apply (proj1 (currentSpeed_never_negative increaseFirst Hw)).
    repeat constructor; simpl; lra.
  - apply (proj2 (currentSpeed_never_negative increaseFirst Hw) 1
             [mkModifier increase 5 0 1000] [mkModifier decrease 20 0 1000]).
    + reflexivity.
    + repeat constructor.
    + repeat constructor.
    + vm_compute. discriminate.
Defined.






End CarClaims.

(** ** TrackManager *)

Section TrackFacts.
Import TrackManager.

Lemma typeEqb_eq (a b : CheckpointType) : typeEqb a b = true <-> a = b.
Proof. destruct a, b; simpl; split; congruence. Qed.

Lemma keyEqb_iff (a b : Key) : keyEqb a b = true <-> keyEq a b.
Proof.
  unfold keyEqb, keyEq. rewrite andb_true_iff, typeEqb_eq, Qeq_bool_iff.
  reflexivity.
Qed.

Lemma keyEq_refl (a : Key) : keyEq a a.
Proof. split; reflexivity. Qed.

Lemma keyEq_sym (a b : Key) : keyEq a b -> keyEq b a.
Proof. intros [H1 H2]. split; [congruence | symmetry; exact H2]. Qed.

Lemma keyEq_trans (a b c : Key) : keyEq a b -> keyEq b c -> keyEq a c.
Proof.
  intros [H1 H2] [H3 H4]. split; [congruence | rewrite H2; exact H4].
Qed.

Lemma keyEqb_compat (a a' b : Key) : keyEq a a' -> keyEqb a b = keyEqb a' b.
Proof.
  intro H. destruct (keyEqb a b) eqn:E1, (keyEqb a' b) eqn:E2; try reflexivity.
  - apply keyEqb_iff in E1.
    assert (keyEq a' b) by (eapply keyEq_trans; [apply keyEq_sym|]; eassumption).
    apply keyEqb_iff in H0. congruence.
  - apply keyEqb_iff in E2.
    assert (keyEq a b) by (eapply keyEq_trans; eassumption).
    apply keyEqb_iff in H0. congruence.
Qed.

Lemma Set_has_compat (a a' : Key) (s : list Key) :
  keyEq a a' -> Set_has a s = Set_has a' s.
Proof.
  intro H. unfold Set_has. induction s as [|x s IH]; simpl; [reflexivity|].
  rewrite IH, (keyEqb_compat a a' x H). reflexivity.
Qed.

Lemma Set_has_app (k : Key) (s1 s2 : list Key) :
  Set_has k (s1 ++ s2) = Set_has k s1 || Set_has k s2.
Proof. apply existsb_app. Qed.

Lemma Set_has_add (k x : Key) (s : list Key) :
  Set_has k (Set_add x s) = Set_has k s || keyEqb k x.
Proof.
  unfold Set_add. destruct (Set_has x s) eqn:E.
  - destruct (keyEqb k x) eqn:Ek; [|rewrite orb_false_r; reflexivity].
    apply keyEqb_iff in Ek. rewrite (Set_has_compat k x s Ek), E. reflexivity.
  - rewrite Set_has_app. simpl. rewrite orb_false_r. reflexivity.
Qed.

Lemma Map_has_compat (a a' : Key) (m : list (Key * CheckpointEvent)) :
  keyEq a a' -> Map_has a m = Map_has a' m.
Proof.
  intro H. unfold Map_has. induction m as [|x m IH]; simpl; [reflexivity|].
  rewrite IH, (keyEqb_compat a a' (fst x) H). reflexivity.
Qed.

Lemma Map_has_set (k x : Key) (v : CheckpointEvent)
    (m : list (Key * CheckpointEvent)) :
  Map_has k (Map_set x v m) = Map_has k m || keyEqb k x.
Proof.
  unfold Map_set. destruct (Map_has x m) eqn:E.
  - assert (Hsame : Map_has k
              (map (fun kv => if keyEqb x (fst kv) then (fst kv, v) else kv) m)
            = Map_has k m).
    { unfold Map_has. clear E. induction m as [|y m IH]; simpl; [reflexivity|].
      rewrite IH. destruct (keyEqb x (fst y)); reflexivity. }
    rewrite Hsame.
    destruct (keyEqb k x) eqn:Ek; [|rewrite orb_false_r; reflexivity].
    apply keyEqb_iff in Ek. rewrite (Map_has_compat k x m Ek), E. reflexivity.
  - unfold Map_has. rewrite existsb_app. simpl. rewrite orb_false_r.
    reflexivity.
Qed.

(** What one run of the shared loop does. *)
Lemma checkLoop_spec (ty : CheckpointType) (points : list Q)
    (d now : Q) (tm : t) :
  match fst (checkLoop ty points d now tm) with
  | None =>
      snd (checkLoop ty points d now tm) = tm
      /\ Forall (fun p => qualifies ty d tm p = false) points
  | Some e =>
      exists before after,
        points = before ++ cdistance e :: after
        /\ Forall (fun p => qualifies ty d tm p = false) before
        /\ qualifies ty d tm (cdistance e) = true
        /\ e = {| ctype := ty; cdistance := cdistance e; activatedAt := now;
                  duration := pointDuration (track tm) |}
        /\ snd (checkLoop ty points d now tm)
           = {| track := track tm;
                activeCheckpoints :=
                  Map_set (keyOf e) e (activeCheckpoints tm);
                processedCheckpoints :=
                  Set_add (keyOf e) (processedCheckpoints tm) |}
  end.
Proof.
  induction points as [|p rest IH]; simpl.
  - split; [reflexivity | constructor].
  - destruct (Qle_bool p d && negb (Map_has (ty, p) (activeCheckpoints tm))
              && negb (Set_has (ty, p) (processedCheckpoints tm))) eqn:E.
    + simpl. exists [], rest. simpl. repeat split.
      * constructor.
      * unfold qualifies, pending. rewrite andb_assoc. exact E.
    + assert (Hq : qualifies ty d tm p = false).
      { unfold qualifies, pending. rewrite andb_assoc. exact E. }
      destruct (fst (checkLoop ty rest d now tm)) as [e|] eqn:Er.
      * destruct IH as (before & after & Hp & Hb & Hrest).
        exists (p :: before), after. rewrite Hp at 1. simpl.
        split; [reflexivity|]. split; [constructor; assumption|]. exact Hrest.
      * destruct IH as [Hs Hall]. split; [exact Hs|]. constructor; assumption.
Qed.

Lemma check_fired (ty : CheckpointType) (d now : Q) (tm : t) (e : CheckpointEvent) :
  fst (check ty d now tm) = Some e ->
  In (cdistance e) (pointsOf (ctype e) (track tm))
  /\ Set_has (keyOf e) (processedCheckpoints tm) = false
  /\ processedCheckpoints (snd (check ty d now tm))
     = Set_add (keyOf e) (processedCheckpoints tm)
  /\ track (snd (check ty d now tm)) = track tm.
Proof.
  intro H.
  assert (Hc : check ty d now tm = checkLoop ty (pointsOf ty (track tm)) d now tm)
    by (destruct ty; reflexivity).
  rewrite Hc in *.
  pose proof (checkLoop_spec ty (pointsOf ty (track tm)) d now tm) as S.
  rewrite H in S. destruct S as (before & after & Hp & _ & Hq & He & Hs).
  assert (Hty : ctype e = ty) by (rewrite He; reflexivity).
  rewrite Hs, Hty. simpl. repeat split.
  - rewrite Hp. apply in_or_app. right. left. reflexivity.
  - unfold qualifies, pending in Hq.
    apply andb_true_iff in Hq. destruct Hq as [_ Hq].
    apply andb_true_iff in Hq. destruct Hq as [_ Hq].
    apply negb_true_iff in Hq. unfold keyOf. rewrite Hty. exact Hq.
Qed.

Lemma check_silent (ty : CheckpointType) (d now : Q) (tm : t) :
  fst (check ty d now tm) = None -> snd (check ty d now tm) = tm.
Proof.
  intro H.
  assert (Hc : check ty d now tm = checkLoop ty (pointsOf ty (track tm)) d now tm)
    by (destruct ty; reflexivity).
  rewrite Hc in *.
  pose proof (checkLoop_spec ty (pointsOf ty (track tm)) d now tm) as S.
  rewrite H in S. apply S.
Qed.

(** Every call keeps the track and only ever grows the processed set; a
    returned event was not in the set before and is in it after. *)
Lemma call_processed (c : Call) (tm : t) :
  track (snd (call c tm)) = track tm
  /\ (forall k, Set_has k (processedCheckpoints tm) = true ->
                Set_has k (processedCheckpoints (snd (call c tm))) = true)
  /\ (forall e, fst (call c tm) = Some e ->
        In (cdistance e) (pointsOf (ctype e) (track tm))
        /\ Set_has (keyOf e) (processedCheckpoints tm) = false
        /\ Set_has (keyOf e) (processedCheckpoints (snd (call c tm))) = true).
Proof.
  assert (Hcheck : forall ty d now,
    track (snd (check ty d now tm)) = track tm
    /\ (forall k, Set_has k (processedCheckpoints tm) = true ->
          Set_has k (processedCheckpoints (snd (check ty d now tm))) = true)
    /\ (forall e, fst (check ty d now tm) = Some e ->
          In (cdistance e) (pointsOf (ctype e) (track tm))
          /\ Set_has (keyOf e) (processedCheckpoints tm) = false
          /\ Set_has (keyOf e)
               (processedCheckpoints (snd (check ty d now tm))) = true)).
  { intros ty d now.
    destruct (fst (check ty d now tm)) as [e|] eqn:E.
    - destruct (check_fired ty d now tm e E) as (Hin & Hnot & Hp & Ht).
      split; [exact Ht|]. split.
      + intros k Hk. rewrite Hp, Set_has_add, Hk. reflexivity.
      + intros e' [= <-]. repeat split; try assumption.
        rewrite Hp, Set_has_add.
        assert (Hr : keyEqb (keyOf e) (keyOf e) = true)
          by (apply keyEqb_iff, keyEq_refl).
        rewrite Hr. apply orb_true_r.
    - rewrite (check_silent ty d now tm E).
      split; [reflexivity|]. split; [auto | discriminate]. }
  destruct c as [d now|d now|now|k]; simpl.
  - apply (Hcheck brake_point).
  - apply (Hcheck straight_point).
  - split; [reflexivity|]. split; [auto | discriminate].
  - split; [reflexivity|]. split; [auto | discriminate].
Qed.

Lemma run_processed (cs : list Call) :
  forall tm,
    track (snd (run cs tm)) = track tm
    /\ (forall k, Set_has k (processedCheckpoints tm) = true ->
                  Set_has k (processedCheckpoints (snd (run cs tm))) = true)
    /\ (forall e, In e (fst (run cs tm)) ->
          In (cdistance e) (pointsOf (ctype e) (track tm))
          /\ Set_has (keyOf e) (processedCheckpoints tm) = false
          /\ Set_has (keyOf e) (processedCheckpoints (snd (run cs tm))) = true)
    /\ NoDupA keyEq (map keyOf (fst (run cs tm))).
Proof.
  induction cs as [|c cs IH]; intro tm; simpl.
  - split; [reflexivity|]. split; [auto|]. split; [contradiction|constructor].
  - destruct (call_processed c tm) as (Ht & Hmono & Hfired).
    destruct (call c tm) as [ev tm1]. simpl in *.
    destruct (IH tm1) as (Ht' & Hmono' & Hfired' & Hnd).
    destruct (run cs tm1) as [evs tm2]. simpl in *.
    assert (Hrest : forall e, In e evs ->
              In (cdistance e) (pointsOf (ctype e) (track tm))
              /\ Set_has (keyOf e) (processedCheckpoints tm) = false
              /\ Set_has (keyOf e) (processedCheckpoints tm2) = true).
    { intros e He. destruct (Hfired' e He) as (Hin & Hnot & Hyes).
      rewrite Ht in Hin. repeat split; try assumption.
      destruct (Set_has (keyOf e) (processedCheckpoints tm)) eqn:E;
        [|reflexivity].
      apply Hmono in E. congruence. }
    split; [congruence|]. split; [auto|].
    destruct ev as [e0|]; simpl.
    + destruct (Hfired e0 eq_refl) as (Hin0 & Hnot0 & Hyes0). split.
      * intros e [<-|He]; [|auto].
        repeat split; try assumption. apply Hmono', Hyes0.
      * constructor; [|exact Hnd].
        intro HA. apply InA_alt in HA. destruct HA as (k & Hk & Hink).
        apply in_map_iff in Hink. destruct Hink as (e & <- & He).
        destruct (Hfired' e He) as (_ & Hnot & _).
        rewrite <- (Set_has_compat _ _ _ Hk) in Hnot. congruence.
    + split; [exact Hrest | exact Hnd].
Qed.

(** C1: over any sequence of [checkBrakePoints], [checkStraightPoints],
    [getControlStates] and [deactivateControl] calls without a reset, at
    arbitrary positions and times and from any manager state, the returned
    events are configured triggers that were not processed before, and no
    two of them have the same (kind, distance): each trigger is returned
    at most once, whether or not it was deactivated or expired meanwhile. *)
Theorem trigger_fires_at_most_once (tm : t) (cs : list Call) :
  NoDupA keyEq (map keyOf (fst (run cs tm)))
  /\ Forall (fun e =>
       In (cdistance e) (pointsOf (ctype e) (track tm))
       /\ Set_has (keyOf e) (processedCheckpoints tm) = false)
     (fst (run cs tm)).
Proof.
  destruct (run_processed cs tm) as (_ & _ & Hfired & Hnd).
  split; [exact Hnd|].
  apply Forall_forall. intros e He. destruct (Hfired e He) as (H1 & H2 & _).
  split; assumption.
Qed.




(** C8 (the code at the failing input): with the brake triggers of 100 m
    and 200 m both active, activated at 0 and at 500, [getControlStates]
    reports the later activation (500), while [getRemainingDuration] and
    [isControlActive] answer from the earlier one (2000 - 600 = 1400 left
    at time 600).  At time 2100 the earlier window has passed and the
    later is open: [isControlActive] answers false and
    [getRemainingDuration] 0, while [getControlStates] reports an active
    brake control. *)
Theorem control_queries_pick_different_triggers :
  map (fun kv => (cdistance (snd kv), activatedAt (snd kv)))
      (activeCheckpoints overlapped) = [(100, 0); (200, 500)]
  /\ fst (fst (getControlStates 600 overlapped))
     = {| isActive := true; csActivatedAt := 500; csDuration := 2000 |}
  /\ getRemainingDuration brake 600 overlapped == 1400
  /\ isControlActive brake 600 overlapped = true
  /\ isActive (fst (fst (getControlStates 2100 overlapped))) = true
  /\ isControlActive brake 2100 overlapped = false
  /\ getRemainingDuration brake 2100 overlapped == 0.
Proof.
  repeat split.
Qed.

End TrackFacts.

(** ** Validators *)

Section ValidationFacts.
Import Validation.

Lemma Qeq_bool_refl' (x : Q) : Qeq_bool x x = true.
Proof. apply Qeq_bool_iff. reflexivity. Qed.

Lemma everyEqual_refl (l : list Q) : everyEqual l l = true.
Proof.
  induction l as [|x l IH]; simpl; [reflexivity|].
  rewrite Qeq_bool_refl', IH. reflexivity.
Qed.

Lemma insert_length (x : Q) (l : list Q) : length (insert x l) = S (length l).
Proof.
  induction l as [|y l IH]; simpl; [reflexivity|].
  destruct (Qle_bool x y); simpl; [reflexivity | rewrite IH; reflexivity].
Qed.

Lemma sort_length (l : list Q) : length (sort l) = length l.
Proof.
  induction l as [|x l IH]; simpl; [reflexivity|].
  rewrite insert_length, IH. reflexivity.
Qed.

Lemma ascending_cons (x : Q) (l : list Q) :
  ascending (x :: l) = true
  <-> ascending l = true /\ match l with [] => True | y :: _ => x <= y end.
Proof.
  destruct l as [|y l]; [simpl; tauto|].
  change (ascending (x :: y :: l))
    with (Qle_bool x y && ascending (y :: l)).
  rewrite andb_true_iff, Qle_bool_iff. tauto.
Qed.

Lemma insert_ascending (x : Q) (l : list Q) :
  ascending l = true -> ascending (insert x l) = true.
Proof.
  induction l as [|y l IH]; intro H; [reflexivity|].
  simpl insert. destruct (Qle_bool x y) eqn:E.
  - apply ascending_cons. split; [exact H|]. apply Qle_bool_iff, E.
  - apply ascending_cons in H. destruct H as [Hl Hy].
    apply ascending_cons. split; [apply IH, Hl|].
    apply Qle_bool_false in E.
    destruct l as [|z l]; simpl.
    + lra.
    + destruct (Qle_bool x z); lra.
Qed.

Lemma sort_ascending (l : list Q) : ascending (sort l) = true.
Proof.
  induction l as [|x l IH]; [reflexivity|].
  simpl. apply insert_ascending, IH.
Qed.

Lemma sort_of_ascending (l : list Q) : ascending l = true -> sort l = l.
Proof.
  induction l as [|x l IH]; intro H; [reflexivity|].
  apply ascending_cons in H. destruct H as [Hl Hx].
  simpl. rewrite (IH Hl). destruct l as [|y l]; [reflexivity|].
  simpl. apply Qle_bool_iff in Hx. rewrite Hx. reflexivity.
Qed.

Lemma everyEqual_ascending (a : list Q) :
  forall b, everyEqual a b = true -> ascending b = true -> ascending a = true.
Proof.
  induction a as [|x a IH]; intros b He Hb; [reflexivity|].
  destruct b as [|y b]; [discriminate|].
  simpl in He. apply andb_true_iff in He. destruct He as [Hxy He].
  apply Qeq_bool_iff in Hxy.
  apply ascending_cons in Hb. destruct Hb as [Hb Hy].
  apply ascending_cons. split; [apply (IH b He Hb)|].
  destruct a as [|x' a]; [exact I|].
  destruct b as [|y' b]; [discriminate|].
  simpl in He. apply andb_true_iff in He. destruct He as [Hxy' _].
  apply Qeq_bool_iff in Hxy'. lra.
Qed.

(** The sortedness test of both validators passes exactly on the arrays
    that are ascending. *)
Lemma sorted_test_iff (l : list Q) :
  everyEqual l (sort l) = true <-> ascending l = true.
Proof.
  split; intro H.
  - apply (everyEqual_ascending l (sort l) H), sort_ascending.
  - rewrite (sort_of_ascending l H). apply everyEqual_refl.
Qed.

Lemma arraysEqual_sort_iff (l : list Q) :
  arraysEqual l (sort l) = true <-> ascending l = true.
Proof.
  unfold arraysEqual. rewrite sort_length, Nat.eqb_refl.
  apply sorted_test_iff.
Qed.

Lemma checkBounds_iff (mk : Q -> ValidationError) (l : list Q) (d : Q) :
  throwsb (checkBounds mk l d) = false <-> withinBounds l d = true.
Proof.
  unfold withinBounds. induction l as [|x l IH]; simpl; [tauto|].
  destruct (Qltb x 0) eqn:E1; simpl.
  - apply Qltb_lt in E1.
    assert (Qle_bool 0 x = false) by (apply Qle_bool_false; lra).
    rewrite H. simpl. split; discriminate.
  - apply Qltb_ge in E1. apply Qle_bool_iff in E1. rewrite E1. simpl.
    unfold Qltb. destruct (Qle_bool d x); simpl; [split; discriminate|].
    exact IH.
Qed.

Lemma existsb_InA (x : Q) (s : list Q) :
  existsb (Qeq_bool x) s = true <-> InA Qeq x s.
Proof.
  rewrite existsb_exists, InA_alt. split.
  - intros (y & Hin & Hy). exists y. apply Qeq_bool_iff in Hy. auto.
  - intros (y & Hy & Hin). exists y. apply Qeq_bool_iff in Hy. auto.
Qed.

Lemma addUnique_fold_length_le (l : list Q) :
  forall acc, (length (fold_left addUnique l acc) <= length acc + length l)%nat.
Proof.
  induction l as [|x l IH]; intro acc; simpl; [lia|].
  specialize (IH (addUnique acc x)). unfold addUnique in *.
  destruct (existsb (Qeq_bool x) acc); [lia|].
  rewrite length_app in IH. simpl in IH. lia.
Qed.

Lemma addUnique_fold_length_eq (l : list Q) :
  forall acc,
    length (fold_left addUnique l acc) = (length acc + length l)%nat
    <-> NoDupA Qeq l /\ (forall x, InA Qeq x l -> ~ InA Qeq x acc).
Proof.
  induction l as [|x l IH]; intro acc; simpl.
  - split; [intros _|lia]. split; [constructor|].
    intros x Hx. inversion Hx.
  - pose proof (addUnique_fold_length_le l (addUnique acc x)) as Hle.
    specialize (IH (addUnique acc x)). unfold addUnique in *.
    destruct (existsb (Qeq_bool x) acc) eqn:E.
    + apply existsb_InA in E. split; [lia|].
      intros [_ H]. exfalso. apply (H x); [left; reflexivity | exact E].
    + assert (Hx : ~ InA Qeq x acc).
      { intro H. apply existsb_InA in H. congruence. }
      rewrite length_app in *. simpl in *.
      replace (length acc + S (length l))%nat
        with (length acc + 1 + length l)%nat by lia.
      rewrite IH. split.
      * intros [Hnd Hout]. split.
        -- constructor; [|exact Hnd]. intro Hin.
           apply (Hout x Hin). apply InA_app_iff. right. left. reflexivity.
        -- intros y Hy Hacc. inversion Hy as [? ? Hxy|? ? Hyl]; subst.
           ++ apply Hx. rewrite <- Hxy. exact Hacc.
           ++ apply (Hout y Hyl). apply InA_app_iff. left. exact Hacc.
      * intros [Hnd Hout]. inversion Hnd as [|? ? Hxl Hnd']; subst.
        split; [exact Hnd'|].
        intros y Hy Hacc. apply InA_app_iff in Hacc.
        destruct Hacc as [Hacc|Hacc].
        -- apply (Hout y); [right; exact Hy | exact Hacc].
        -- inversion Hacc as [? ? Hyx|? ? Hnil]; subst; [|inversion Hnil].
           apply Hxl. rewrite <- Hyx. exact Hy.
Qed.

(** The [Set]-size test passes exactly on the arrays without duplicates. *)
Lemma duplicates_test_iff (l : list Q) :
  Nat.eqb (length (Set_of l)) (length l) = true <-> NoDupA Qeq l.
Proof.
  rewrite Nat.eqb_eq.
  change (Set_of l) with (fold_left addUnique l []).
  rewrite (addUnique_fold_length_eq l []). simpl.
  split; [tauto|]. intro H. split; [exact H|].
  intros x _ Hx. inversion Hx.
Qed.

Lemma ascending_head_le (x : Q) (l : list Q) :
  ascending (x :: l) = true -> forall y, InA Qeq y l -> x <= y.
Proof.
  revert x. induction l as [|z l IH]; intros x H y Hy; [inversion Hy|].
  apply ascending_cons in H. destruct H as [Hl Hxz].
  inversion Hy as [? ? Hyz|? ? Hyl]; subst.
  - lra.
  - pose proof (IH z Hl y Hyl). lra.
Qed.

Lemma strictlyAscending_cons (x : Q) (l : list Q) :
  strictlyAscending (x :: l) = true
  <-> strictlyAscending l = true
      /\ match l with [] => True | y :: _ => x < y end.
Proof.
  destruct l as [|y l]; [simpl; tauto|].
  change (strictlyAscending (x :: y :: l))
    with (Qltb x y && strictlyAscending (y :: l)).
  rewrite andb_true_iff, Qltb_lt. tauto.
Qed.

(** Strictly ascending is ascending without duplicates. *)
Lemma strictlyAscending_iff (l : list Q) :
  strictlyAscending l = true <-> ascending l = true /\ NoDupA Qeq l.
Proof.
  induction l as [|x l IH].
  - simpl. split; [split; [reflexivity | constructor] | reflexivity].
  - rewrite strictlyAscending_cons, ascending_cons, IH. split.
    + intros [[Ha Hnd] Hx].
      assert (Hasc : ascending (x :: l) = true).
      { apply ascending_cons. split; [exact Ha|].
        destruct l; [exact I | lra]. }
      repeat split; [exact Ha | destruct l; [exact I | lra] |].
      constructor; [|exact Hnd]. intro Hin.
      destruct l as [|y l]; [inversion Hin|].
      inversion Hin as [? ? Hxy|? ? Hxl]; subst; [lra|].
      pose proof (ascending_head_le y l Ha x Hxl). lra.
    + intros [[Ha Hx] Hnd]. inversion Hnd as [|? ? Hxl Hnd']; subst.
      repeat split; [exact Ha | exact Hnd' |].
      destruct l as [|y l]; [exact I|].
      destruct (Qeq_dec x y) as [E|E]; [|lra].
      exfalso. apply Hxl. left. exact E.
Qed.


(** [validateCheckpointArray] returns normally exactly on the non-empty
    arrays with every point in [0, distance), no duplicates, ascending. *)
Lemma validateCheckpointArray_iff (l : list Q) (d : Q) :
  throwsb (validateCheckpointArray l d) = false
  <-> l <> [] /\ withinBounds l d = true /\ strictlyAscending l = true.
Proof.
  unfold validateCheckpointArray.
  rewrite strictlyAscending_iff, <- sorted_test_iff, <- duplicates_test_iff,
          <- (checkBounds_iff PointOutsideBounds).
  destruct l as [|x l].
  - simpl. split; [discriminate | intros [H _]; congruence].
  - change (Nat.eqb (length (x :: l)) 0) with false.
    cbn [throwIf andThen].
    destruct (checkBounds PointOutsideBounds (x :: l) d) eqn:Eb; cbn [andThen throwsb].
    + destruct (Nat.eqb (length (Set_of (x :: l))) (length (x :: l))) eqn:Ed;
        cbn [negb throwIf andThen throwsb].
      * destruct (everyEqual (x :: l) (sort (x :: l))) eqn:Es;
          cbn [negb throwIf throwsb].
        -- split; [intros _|reflexivity]. repeat split; discriminate.
        -- split; [discriminate|]. intros (_ & _ & Hs & _). discriminate.
      * split; [discriminate|]. intros (_ & _ & _ & Hd). discriminate.
    + split; [discriminate|]. intros (_ & Hb & _). discriminate.
Qed.

(** [validateTrack] returns normally exactly on the tracks with positive
    scalars whose arrays are within [0, distance) and ascending. *)
Lemma validateTrack_iff (track : Track) :
  throwsb (validateTrack track) = false
  <-> positiveScalars track = true
      /\ withinBounds (brakePoints track) (distance track) = true
      /\ withinBounds (straightPoints track) (distance track) = true
      /\ ascending (brakePoints track) = true
      /\ ascending (straightPoints track) = true.
Proof.
  unfold validateTrack, positiveScalars, Qltb.
  rewrite <- !arraysEqual_sort_iff,
          <- (checkBounds_iff BrakePointOutsideBounds),
          <- (checkBounds_iff StraightPointOutsideBounds).
  destruct (Qle_bool (distance track) 0); simpl;
    [split; [discriminate | intros [H _]; discriminate]|].
  destruct (Qle_bool (averageSpeed track) 0); simpl;
    [split; [discriminate | intros [H _]; discriminate]|].
  destruct (Qle_bool (speedIncrease track) 0); simpl;
    [split; [discriminate | intros [H _]; discriminate]|].
  destruct (Qle_bool (speedDecrease track) 0); simpl;
    [split; [discriminate | intros [H _]; discriminate]|].
  destruct (Qle_bool (pointDuration track) 0); simpl;
    [split; [discriminate | intros [H _]; discriminate]|].
  destruct (checkBounds BrakePointOutsideBounds _ _); simpl;
    [|split; [discriminate | intros (_ & H & _); discriminate]].
  destruct (checkBounds StraightPointOutsideBounds _ _); simpl;
    [|split; [discriminate | intros (_ & _ & H & _); discriminate]].
  destruct (arraysEqual (brakePoints track) _); simpl;
    [|split; [discriminate | intros (_ & _ & _ & H & _); discriminate]].
  destruct (arraysEqual (straightPoints track) _); simpl;
    [|split; [discriminate | intros (_ & _ & _ & _ & H); discriminate]].
  tauto.
Qed.

Lemma throwsb_false (o : Outcome) : throwsb o = false <-> o = Returns.
Proof. destruct o; simpl; split; congruence. Qed.




End ValidationFacts.

(** ** The useGameState hook *)

Section HookFacts.
Import UseGameState.

Lemma fold_Map_delete (keys : list TrackManager.Key) :
  forall m,
    fold_left (fun m k => TrackManager.Map_delete k m) keys m
    = filter (fun kv =>
        negb (existsb (fun k => TrackManager.keyEqb k (fst kv)) keys)) m.
Proof.
  induction keys as [|k keys IH]; intro m; simpl.
  - induction m as [|x m IHm]; simpl; [reflexivity | rewrite <- IHm; reflexivity].
  - rewrite IH. unfold TrackManager.Map_delete.
    induction m as [|x m IHm]; simpl; [reflexivity|].
    destruct (TrackManager.keyEqb k (fst x)); simpl.
    + exact IHm.
    + destruct (existsb _ keys); simpl; [exact IHm | rewrite IHm; reflexivity].
Qed.

Lemma firstOfType_none (ty : CheckpointType)
    (m : list (TrackManager.Key * CheckpointEvent)) :
  TrackManager.firstOfType ty m = None
  <-> forall kv, In kv m -> TrackManager.typeEqb (ctype (snd kv)) ty = false.
Proof.
  unfold TrackManager.firstOfType. split.
  - intros H kv Hin.
    destruct (find _ m) as [x|] eqn:E; [discriminate|].
    apply (find_none _ _ E kv Hin).
  - intro H. destruct (find _ m) as [x|] eqn:E; [|reflexivity].
    apply find_some in E. destruct E as [Hin Hx].
    rewrite (H x Hin) in Hx. discriminate.
Qed.

(** [deactivateControl] leaves no active checkpoint of the control's type. *)
Lemma deactivateControl_clears (k : ControlType) (tm : TrackManager.t) :
  TrackManager.firstOfType (TrackManager.checkpointTypeOf k)
    (TrackManager.activeCheckpoints (TrackManager.deactivateControl k tm))
  = None.
Proof.
  apply firstOfType_none. intros kv Hin.
  unfold TrackManager.deactivateControl in Hin. simpl in Hin.
  rewrite fold_Map_delete in Hin. apply filter_In in Hin.
  destruct Hin as [Hin Hnot].
  destruct (TrackManager.typeEqb (ctype (snd kv))
              (TrackManager.checkpointTypeOf k)) eqn:E; [|reflexivity].
  exfalso. apply negb_true_iff in Hnot.
  assert (Hex : existsb (fun k0 => TrackManager.keyEqb k0 (fst kv))
            (map fst (filter (fun kv0 =>
               TrackManager.typeEqb (ctype (snd kv0))
                 (TrackManager.checkpointTypeOf k))
               (TrackManager.activeCheckpoints tm))) = true).
  { apply existsb_exists. exists (fst kv). split.
    - apply in_map. apply filter_In. split; assumption.
    - apply keyEqb_iff, keyEq_refl. }
  congruence.
Qed.

(** [getControlStates] only removes active checkpoints. *)
Lemma getControlStates_subset (now : Q) (tm : TrackManager.t)
    (kv : TrackManager.Key * CheckpointEvent) :
  In kv (TrackManager.activeCheckpoints
           (snd (TrackManager.getControlStates now tm))) ->
  In kv (TrackManager.activeCheckpoints tm).
Proof.
  unfold TrackManager.getControlStates. simpl.
  rewrite fold_Map_delete. intro H. apply filter_In in H. apply H.
Qed.



(** A press on red leaves the car alone or adds the penalty modifier. *)
Lemma handleControlInput_red (k : ControlType) (now t1 t2 t3 : Q) (h : t) :
  TrackManager.isControlActive k now (trackManager h) = false ->
  handleControlInput k now t1 t2 t3 h = h
  \/ (Set_has k (activePenalties h) = false
      /\ carManager (handleControlInput k now t1 t2 t3 h)
         = CarManager.addSpeedModifier decrease
             (speedDecrease (gsTrack (gameState h))) 1000 t1 t2 (carManager h)).
Proof.
  intro Hred. unfold handleControlInput.
  destruct (Qltb _ 100); [left; reflexivity|].
  destruct (negb (isRunning (gameState h))); [left; reflexivity|].
  rewrite Hred.
  destruct (Set_has k (activePenalties h)); simpl; [left; reflexivity|].
  right. split; reflexivity.
Qed.

Lemma green_press_state (h : t) (k : ControlType) (now tStart tUpdate tTimer : Q) :
  isRunning (gameState h) = true ->
  100 <= now - ofControl k (inputCooldown h) ->
  TrackManager.isControlActive k now (trackManager h) = true ->
  let h' := handleControlInput k now tStart tUpdate tTimer h in
  carManager h'
  = CarManager.addSpeedModifier increase
      (speedBonusFor (speedIncrease (gsTrack (gameState h)))
         (now - csActivatedAt (ofControl k (activeControls (gameState h)))))
      (Math_max 0 (TrackManager.getRemainingDuration k now (trackManager h)))
      tStart tUpdate (carManager h)
  /\ gsCar (gameState h') = carManager h'
  /\ trackManager h'
     = snd (TrackManager.getControlStates now
              (TrackManager.deactivateControl k (trackManager h)))
  /\ activePenalties h' = activePenalties h
  /\ pendingTimeouts h' = pendingTimeouts h.
Proof.
  intros Hrun Hcd Hact. cbv zeta. unfold handleControlInput.
  apply Qltb_ge in Hcd. rewrite Hcd, Hrun, Hact. simpl negb. cbv iota.
  destruct (TrackManager.getControlStates now
              (TrackManager.deactivateControl k (trackManager h)))
    as [st tm'] eqn:Eg.
  simpl. repeat split.
Qed.

(** While the control is active its remaining window is positive and is
    the window of the first active checkpoint of its type. *)
Lemma remaining_when_active (k : ControlType) (now : Q) (tm : TrackManager.t) :
  TrackManager.isControlActive k now tm = true ->
  exists c,
    TrackManager.firstOfType (TrackManager.checkpointTypeOf k)
      (TrackManager.activeCheckpoints tm) = Some c
    /\ TrackManager.getRemainingDuration k now tm
       = duration c - (now - activatedAt c)
    /\ Math_max 0 (TrackManager.getRemainingDuration k now tm)
       = TrackManager.getRemainingDuration k now tm
    /\ 0 < TrackManager.getRemainingDuration k now tm.
Proof.
  unfold TrackManager.isControlActive, TrackManager.getRemainingDuration.
  destruct (TrackManager.firstOfType _ _) as [c|]; [|discriminate].
  intro H. apply Qltb_lt in H. exists c. split; [reflexivity|].
  assert (E : Math_max 0 (duration c - (now - activatedAt c))
              = duration c - (now - activatedAt c)).
  { case_max 0 (duration c - (now - activatedAt c)); [reflexivity | lra]. }
  rewrite E. split; [reflexivity|]. split; [|lra].
  case_max 0 (duration c - (now - activatedAt c)); [reflexivity | lra].
Qed.




(** The scenario of the specification: a reaction 50 ms after the
    activation gives an increase of 15 x 1.5 = 22.5 for 2000 - 50 = 1950 ms. *)
Example reaction_after_50ms :
  map (fun m => (mtype m, Qred (amount m), startTime m, Qred (mduration m)))
      (speedModifiers
         (carManager
            (handleControlInput acceleration 2050 2050 2050 2050
               atFirstStraight)))
  = [(increase, 45 # 2, 2050, 1950)].
Proof. reflexivity. Qed.

Lemma controlEqb_eq (a b : ControlType) : controlEqb a b = true <-> a = b.
Proof. destruct a, b; simpl; split; congruence. Qed.

Lemma controlEqb_refl (a : ControlType) : controlEqb a a = true.
Proof. destruct a; reflexivity. Qed.

Lemma penalty_Set_has_add (k x : ControlType) (s : list ControlType) :
  Set_has k (Set_add x s) = Set_has k s || controlEqb k x.
Proof.
  unfold Set_add. destruct (Set_has x s) eqn:E.
  - destruct (controlEqb k x) eqn:Ek; [|rewrite orb_false_r; reflexivity].
    apply controlEqb_eq in Ek. subst. rewrite E. reflexivity.
  - unfold Set_has. rewrite existsb_app. simpl. rewrite orb_false_r.
    reflexivity.
Qed.

Lemma penalty_Set_has_delete (k x : ControlType) (s : list ControlType) :
  Set_has k (Set_delete x s) = Set_has k s && negb (controlEqb x k).
Proof.
  unfold Set_has, Set_delete. induction s as [|y s IH]; simpl; [reflexivity|].
  destruct (controlEqb x y) eqn:Exy; simpl.
  - rewrite IH. apply controlEqb_eq in Exy. subst y.
    destruct k, x; simpl; try reflexivity;
      destruct (existsb _ s); reflexivity.
  - rewrite IH. destruct (controlEqb k y) eqn:Eky; simpl; [|reflexivity].
    apply controlEqb_eq in Eky. subst y. rewrite Exy. reflexivity.
Qed.

Lemma penalty_Set_has_fold_delete (k : ControlType)
    (due : list (Q * ControlType)) :
  forall s,
    Set_has k (fold_left (fun s p => Set_delete (snd p) s) due s)
    = Set_has k s && negb (existsb (fun p => controlEqb (snd p) k) due).
Proof.
  induction due as [|p due IH]; intro s; simpl.
  - rewrite andb_true_r. reflexivity.
  - rewrite IH, penalty_Set_has_delete.
    destruct (Set_has k s), (controlEqb (snd p) k); reflexivity.
Qed.

(** What a press does to the penalty flags and the pending timeouts. *)
Lemma handleControlInput_penalties (k : ControlType) (now t1 t2 t3 : Q) (h : t) :
  let h' := handleControlInput k now t1 t2 t3 h in
  (activePenalties h' = activePenalties h
   /\ pendingTimeouts h' = pendingTimeouts h)
  \/ (Set_has k (activePenalties h) = false
      /\ activePenalties h' = Set_add k (activePenalties h)
      /\ pendingTimeouts h' = pendingTimeouts h ++ [(t3 + 1000, k)]).
Proof.
  cbv zeta. unfold handleControlInput.
  destruct (Qltb _ 100); [left; split; reflexivity|].
  destruct (negb (isRunning (gameState h))); [left; split; reflexivity|].
  destruct (TrackManager.isControlActive k now (trackManager h)).
  - destruct (TrackManager.getControlStates now _) as [st tm'].
    left. split; reflexivity.
  - destruct (Set_has k (activePenalties h)) eqn:E; simpl.
    + left. split; reflexivity.
    + right. repeat split.
Qed.

Lemma frame_penalties (dt tp tr tm tc : Q) (h : t) :
  let h' := dispatch h (Frame dt tp tr tm tc) in
  activePenalties h' = activePenalties h
  /\ pendingTimeouts h' = pendingTimeouts h.
Proof.
  cbv zeta. simpl.
  assert (H1 : activePenalties (updateCarPosition dt tp tr h) = activePenalties h
               /\ pendingTimeouts (updateCarPosition dt tp tr h)
                  = pendingTimeouts h).
  { unfold updateCarPosition.
    destruct (negb (isRunning (gameState h))); split; reflexivity. }
  set (h1 := updateCarPosition dt tp tr h) in *.
  assert (H2 : activePenalties (updateSpeedModifiers tm h1) = activePenalties h1
               /\ pendingTimeouts (updateSpeedModifiers tm h1)
                  = pendingTimeouts h1).
  { unfold updateSpeedModifiers.
    destruct (negb (isRunning (gameState h1))); split; reflexivity. }
  set (h2 := updateSpeedModifiers tm h1) in *.
  assert (H3 : activePenalties (updateControlStates tc h2) = activePenalties h2
               /\ pendingTimeouts (updateControlStates tc h2)
                  = pendingTimeouts h2).
  { unfold updateControlStates.
    destruct (negb (isRunning (gameState h2))); [split; reflexivity|].
    destruct (TrackManager.checkBrakePoints _ _ _) as [e1 tm1].
    destruct (TrackManager.checkStraightPoints _ _ _) as [e2 tm2].
    destruct (TrackManager.getControlStates _ _) as [st tm3].
    split; reflexivity. }
  destruct H1, H2, H3. split; congruence.
Qed.

Lemma flagHeld_dispatch (k : ControlType) (limit : Q) (h : t) (e : Event) :
  flagHeld k limit h -> timeOf e < limit -> flagHeld k limit (dispatch h e).
Proof.
  intros [Hflag Hpend] Htime. destruct e as [k' now t1 t2 t3|dt tp tr tm tc|now].
  - simpl.
    destruct (handleControlInput_penalties k' now t1 t2 t3 h)
      as [[E1 E2]|(Hno & E1 & E2)]; unfold flagHeld; rewrite E1, E2.
    + split; assumption.
    + split.
      * rewrite penalty_Set_has_add, Hflag. reflexivity.
      * apply Forall_app. split; [exact Hpend|].
        constructor; [|constructor]. simpl. intro Hk. subst k'. congruence.
  - destruct (frame_penalties dt tp tr tm tc h) as [E1 E2].
    unfold flagHeld. rewrite E1, E2. split; assumption.
  - simpl in *. unfold flagHeld, runTimeouts. simpl. split.
    + rewrite penalty_Set_has_fold_delete, Hflag. simpl.
      apply negb_true_iff.
      destruct (existsb _ _) eqn:E; [|reflexivity]. exfalso.
      apply existsb_exists in E. destruct E as (p & Hin & Hk).
      apply filter_In in Hin. destruct Hin as [Hin Hdue].
      apply controlEqb_eq in Hk. apply Qle_bool_iff in Hdue.
      rewrite Forall_forall in Hpend. specialize (Hpend p Hin Hk). lra.
    + apply Forall_forall. intros p Hin. apply filter_In in Hin.
      rewrite Forall_forall in Hpend. apply Hpend, Hin.
Qed.

Lemma flagHeld_run (k : ControlType) (limit : Q) (es : list Event) :
  forall h,
    flagHeld k limit h -> Forall (fun e => timeOf e < limit) es ->
    flagHeld k limit (run es h).
Proof.
  induction es as [|e es IH]; intros h Hh Hes; simpl; [exact Hh|].
  inversion Hes; subst. apply IH; [|assumption].
  apply flagHeld_dispatch; assumption.
Qed.

(** Within a race that starts with no timeout of [k] pending, the penalty
    is exclusive: the press on red adds the decrease of the configured
    magnitude for 1000 ms, and whatever happens before the 1000 ms have
    passed, a further press of [k] on red changes nothing. *)
Lemma penalty_exclusive_without_stale_timeout
    (h : t) (k : ControlType) (now tStart tUpdate tTimer : Q) :
  isRunning (gameState h) = true ->
  100 <= now - ofControl k (inputCooldown h) ->
  TrackManager.isControlActive k now (trackManager h) = false ->
  Set_has k (activePenalties h) = false ->
  Forall (fun p => snd p <> k) (pendingTimeouts h) ->
  tStart <= tTimer ->
  let h' := handleControlInput k now tStart tUpdate tTimer h in
  carManager h'
  = CarManager.addSpeedModifier decrease
      (speedDecrease (gsTrack (gameState h))) 1000 tStart tUpdate (carManager h)
  /\ (forall es, Forall (fun e => timeOf e < tStart + 1000) es ->
      forall t' t1 t2 t3,
        TrackManager.isControlActive k t' (trackManager (run es h')) = false ->
        handleControlInput k t' t1 t2 t3 (run es h') = run es h').
Proof.
  intros Hrun Hcd Hred Hflag Hpend Hclock. cbv zeta.
  assert (Hh' : handleControlInput k now tStart tUpdate tTimer h
    = {| config := config h;
         gameState :=
           {| gsTrack := gsTrack (gameState h);
              gsCar := CarManager.addSpeedModifier decrease
                         (speedDecrease (gsTrack (gameState h))) 1000
                         tStart tUpdate (carManager h);
              gameStatus := gameStatus (gameState h);
              activeControls := activeControls (gameState h);
              raceStartTime := raceStartTime (gameState h) |};
         carManager := CarManager.addSpeedModifier decrease
                         (speedDecrease (gsTrack (gameState h))) 1000
                         tStart tUpdate (carManager h);
         trackManager := trackManager h;
         inputCooldown := setControl k now (inputCooldown h);
         activePenalties := Set_add k (activePenalties h);
         pendingTimeouts := pendingTimeouts h ++ [(tTimer + 1000, k)] |}).
  { unfold handleControlInput. apply Qltb_ge in Hcd.
    rewrite Hcd, Hrun, Hred, Hflag. reflexivity. }
  rewrite Hh'. split; [reflexivity|].
  intros es Hes t' t1 t2 t3 Hred'.
  assert (Hheld : flagHeld k (tStart + 1000) (run es
            {| config := config h;
               gameState :=
                 {| gsTrack := gsTrack (gameState h);
                    gsCar := CarManager.addSpeedModifier decrease
                               (speedDecrease (gsTrack (gameState h))) 1000
                               tStart tUpdate (carManager h);
                    gameStatus := gameStatus (gameState h);
                    activeControls := activeControls (gameState h);
                    raceStartTime := raceStartTime (gameState h) |};
               carManager := CarManager.addSpeedModifier decrease
                               (speedDecrease (gsTrack (gameState h))) 1000
                               tStart tUpdate (carManager h);
               trackManager := trackManager h;
               inputCooldown := setControl k now (inputCooldown h);
               activePenalties := Set_add k (activePenalties h);
               pendingTimeouts := pendingTimeouts h ++ [(tTimer + 1000, k)] |})).
  { apply flagHeld_run; [|exact Hes]. split; simpl.
    - rewrite penalty_Set_has_add, controlEqb_refl. apply orb_true_r.
    - apply Forall_app. split.
      + eapply Forall_impl; [|exact Hpend]. simpl. intros p Hp Hk. contradiction.
      + constructor; [|constructor]. simpl. intros _. lra. }
  destruct Hheld as [Hset _].
  match goal with |- handleControlInput _ _ _ _ _ ?s = _ =>
    destruct (handleControlInput_red k t' t1 t2 t3 s Hred') as [E|[E _]]
  end; [exact E | congruence].
Qed.

Lemma NoDup_map_snd_filter (p : Q * ControlType -> bool)
    (l : list (Q * ControlType)) :
  NoDup (map snd l) -> NoDup (map snd (filter p l)).
Proof.
  induction l as [|x l IH]; simpl; intro H; [constructor|].
  inversion H as [|? ? Hx Hl]; subst.
  destruct (p x); simpl; [|apply IH, Hl].
  constructor; [|apply IH, Hl].
  intro Hin. apply Hx. apply in_map_iff in Hin.
  destruct Hin as (y & Hy & Hin). apply filter_In in Hin.
  rewrite <- Hy. apply in_map, Hin.
Qed.

Lemma NoDup_map_snd_inj (l : list (Q * ControlType)) (p q : Q * ControlType) :
  NoDup (map snd l) -> In p l -> In q l -> snd p = snd q -> p = q.
Proof.
  induction l as [|x l IH]; simpl; intros H Hp Hq E; [contradiction|].
  inversion H as [|? ? Hx Hl]; subst.
  destruct Hp as [->|Hp], Hq as [->|Hq].
  - reflexivity.
  - exfalso. apply Hx. rewrite E. apply in_map, Hq.
  - exfalso. apply Hx. rewrite <- E. apply in_map, Hp.
  - apply IH; assumption.
Qed.

Lemma timeoutsConsistent_dispatch (h : t) (e : Event) :
  timeoutsConsistent h -> timeoutsConsistent (dispatch h e).
Proof.
  intros [Hnd Hflag]. destruct e as [k now t1 t2 t3|dt tp tr tm tc|now].
  - simpl.
    destruct (handleControlInput_penalties k now t1 t2 t3 h)
      as [[E1 E2]|(Hno & E1 & E2)]; unfold timeoutsConsistent; rewrite E1, E2.
    + split; assumption.
    + split.
      * rewrite map_app. simpl. apply NoDup_app; [exact Hnd | | ].
        -- constructor; [intros []|constructor].
        -- intros x Hx [<-|[]]. apply in_map_iff in Hx.
           destruct Hx as (p & Hp & Hin). specialize (Hflag p Hin).
           rewrite Hp in Hflag. congruence.
      * intros p Hin. rewrite penalty_Set_has_add.
        apply in_app_or in Hin. destruct Hin as [Hin|[<-|[]]].
        -- rewrite (Hflag p Hin). reflexivity.
        -- simpl. rewrite controlEqb_refl. apply orb_true_r.
  - destruct (frame_penalties dt tp tr tm tc h) as [E1 E2].
    unfold timeoutsConsistent. rewrite E1, E2. split; assumption.
  - unfold timeoutsConsistent, runTimeouts. simpl. split.
    + apply NoDup_map_snd_filter, Hnd.
    + intros p Hin. apply filter_In in Hin. destruct Hin as [Hin Hlate].
      rewrite penalty_Set_has_fold_delete, (Hflag p Hin). simpl.
      apply negb_true_iff.
      destruct (existsb _ _) eqn:E; [|reflexivity]. exfalso.
      apply existsb_exists in E. destruct E as (q & Hq & Hk).
      apply filter_In in Hq. destruct Hq as [Hq Hdue].
      apply controlEqb_eq in Hk.
      assert (q = p) by (apply (NoDup_map_snd_inj _ q p Hnd Hq Hin Hk)).
      subst q. rewrite Hdue in Hlate. discriminate.
Qed.

(** In the first race after the hook is mounted no timeout is stale: the
    premise of [penalty_exclusive_without_stale_timeout] on the pending
    timeouts holds at every press that finds the flag clear. *)
Lemma first_race_has_no_stale_timeout
    (cfg : Track) (start : Q) (es : list Event) (k : ControlType) :
  let h := run es (startRace start (mount cfg)) in
  Set_has k (activePenalties h) = false ->
  Forall (fun p => snd p <> k) (pendingTimeouts h).
Proof.
  cbv zeta.
  assert (Hc : timeoutsConsistent (run es (startRace start (mount cfg)))).
  { assert (H0 : timeoutsConsistent (startRace start (mount cfg))).
    { split; simpl; [constructor | intros p []]. }
    revert H0. generalize (startRace start (mount cfg)).
    induction es as [|e es IH]; intros h H0; simpl; [exact H0|].
    apply IH, timeoutsConsistent_dispatch, H0. }
  intro Hno. apply Forall_forall. intros p Hin Hk.
  destruct Hc as [_ Hflag]. specialize (Hflag p Hin).
  rewrite Hk in Hflag. congruence.
Qed.

(** C6 (the code at the failing input): the timeouts of [handleControlInput]
    are never cancelled, while a restart clears the penalty flags.  The
    brake is pressed on red at 150 ms, the race is restarted at 500 ms, the
    brake is pressed on red at 600 ms (penalty until 1600 ms); at 1150 ms
    the timeout of the first press clears the flag, and the press on red at
    1200 ms, 600 ms after the penalty in force, adds a second decrease: the
    two stack and the speed drops from 50 to 30. *)
Theorem stale_timeout_lets_penalties_stack :
  speedModifiers (carManager afterStaleTimeout)
  = [CarManager.mkModifier decrease 10 600 1000]
  /\ isRunning (gameState afterStaleTimeout) = true
  /\ TrackManager.isControlActive brake 1200 (trackManager afterStaleTimeout)
     = false
  /\ Set_has brake (activePenalties afterStaleTimeout) = false
  /\ speedModifiers
       (carManager (handleControlInput brake 1200 1200 1200 1200
                      afterStaleTimeout))
     = [CarManager.mkModifier decrease 10 600 1000;
        CarManager.mkModifier decrease 10 1200 1000]
  /\ currentSpeed
       (carManager (handleControlInput brake 1200 1200 1200 1200
                      afterStaleTimeout)) == 30.
Proof.
  repeat split.
Qed.

(** *** The control state after a frame

    When one checkpoint of a kind is active, the state stored by
    [updateControlStates] carries the activation time of that checkpoint,
    so the reaction time of a press is measured from it. *)

Lemma fold_setState_other (k : ControlType) (now : Q)
    (m : list (TrackManager.Key * CheckpointEvent)) :
  forall st,
    activeOfType (TrackManager.checkpointTypeOf k) m = [] ->
    ofControl k (fold_left (TrackManager.setState now) m st) = ofControl k st.
Proof.
  induction m as [|x m IH]; intros st H; simpl; [reflexivity|].
  unfold activeOfType in H. simpl in H.
  destruct (TrackManager.typeEqb (ctype (snd x))
              (TrackManager.checkpointTypeOf k)) eqn:E; [discriminate|].
  rewrite (IH _ H). unfold TrackManager.setState.
  destruct (Qltb _ _); [|reflexivity].
  destruct k, (ctype (snd x)); simpl in *; try reflexivity; discriminate.
Qed.

Lemma fold_setState_single (k : ControlType) (now : Q) (c : CheckpointEvent)
    (m : list (TrackManager.Key * CheckpointEvent)) :
  forall st,
    Forall (fun kv => TrackManager.expired now (snd kv) = false) m ->
    activeOfType (TrackManager.checkpointTypeOf k) m = [c] ->
    ofControl k (fold_left (TrackManager.setState now) m st) = stateOf c.
Proof.
  induction m as [|x m IH]; intros st Hlive H; [discriminate|].
  inversion Hlive as [|? ? Hx Hm]; subst.
  unfold activeOfType in H. simpl in H. simpl.
  assert (Hcheck : Qltb (now - activatedAt (snd x)) (duration (snd x)) = true).
  { unfold TrackManager.expired in Hx. apply Qle_bool_false in Hx.
    apply Qltb_lt. exact Hx. }
  destruct (TrackManager.typeEqb (ctype (snd x))
              (TrackManager.checkpointTypeOf k)) eqn:E.
  - injection H as Hc Hrest. subst c.
    rewrite (fold_setState_other k now m _ Hrest).
    unfold TrackManager.setState. rewrite Hcheck.
    destruct k, (ctype (snd x)); simpl in *; try reflexivity; discriminate.
  - apply (IH _ Hm H).
Qed.

(** After its cleanup [getControlStates] holds unexpired checkpoints only. *)
Lemma getControlStates_live (now : Q) (tm : TrackManager.t) :
  Forall (fun kv => TrackManager.expired now (snd kv) = false)
    (TrackManager.activeCheckpoints
       (snd (TrackManager.getControlStates now tm))).
Proof.
  unfold TrackManager.getControlStates. simpl. rewrite fold_Map_delete.
  apply Forall_forall. intros kv Hin. apply filter_In in Hin.
  destruct Hin as [Hin Hnot]. apply negb_true_iff in Hnot.
  destruct (TrackManager.expired now (snd kv)) eqn:E; [|reflexivity].
  exfalso.
  assert (Hex : existsb (fun k0 => TrackManager.keyEqb k0 (fst kv))
            (map fst (filter (fun kv0 => TrackManager.expired now (snd kv0))
               (TrackManager.activeCheckpoints tm))) = true).
  { apply existsb_exists. exists (fst kv). split.
    - apply in_map. apply filter_In. split; assumption.
    - apply keyEqb_iff, keyEq_refl. }
  congruence.
Qed.

Lemma getControlStates_states (now : Q) (tm : TrackManager.t) :
  fst (TrackManager.getControlStates now tm)
  = fold_left (TrackManager.setState now)
      (TrackManager.activeCheckpoints
         (snd (TrackManager.getControlStates now tm)))
      (TrackManager.inactiveState, TrackManager.inactiveState).
Proof. reflexivity. Qed.

Lemma stateChanged_false (new old : ControlState) :
  stateChanged new old = false ->
  isActive old = isActive new /\ csActivatedAt old == csActivatedAt new.
Proof.
  unfold stateChanged. intro H. apply orb_false_iff in H.
  destruct H as [H1 H2]. apply negb_false_iff in H1, H2.
  apply Bool.eqb_prop in H1. apply Qeq_bool_iff in H2.
  split; [congruence | symmetry; exact H2].
Qed.

(** The state a frame leaves for a kind with a single active checkpoint. *)
Lemma updateControlStates_syncs (tc : Q) (h : t) (k : ControlType)
    (c : CheckpointEvent) :
  isRunning (gameState h) = true ->
  activeOfType (TrackManager.checkpointTypeOf k)
    (TrackManager.activeCheckpoints (trackManager (updateControlStates tc h)))
  = [c] ->
  let st := ofControl k (activeControls (gameState (updateControlStates tc h))) in
  isActive st = true /\ csActivatedAt st == activatedAt c
  /\ isRunning (gameState (updateControlStates tc h)) = true
  /\ gsTrack (gameState (updateControlStates tc h)) = gsTrack (gameState h)
  /\ inputCooldown (updateControlStates tc h) = inputCooldown h
  /\ carManager (updateControlStates tc h) = carManager h.
Proof.
  intros Hrun. unfold updateControlStates. rewrite Hrun. simpl negb. cbv iota.
  destruct (TrackManager.checkBrakePoints _ _ _) as [e1 tm1].
  destruct (TrackManager.checkStraightPoints _ _ _) as [e2 tm2].
  pose proof (getControlStates_live tc tm2) as Hlive.
  pose proof (getControlStates_states tc tm2) as Hst.
  destruct (TrackManager.getControlStates tc tm2) as [cs tm3].
  simpl in *. intro Hone.
  assert (Hk : ofControl k cs = stateOf c).
  { rewrite Hst. apply fold_setState_single; assumption. }
  destruct (stateChanged (fst cs) (fst (activeControls (gameState h)))) eqn:Cb;
    simpl.
  - rewrite Hk. simpl. repeat split; try reflexivity. exact Hrun.
  - destruct (stateChanged (snd cs) (snd (activeControls (gameState h))))
      eqn:Ca; simpl.
    + rewrite Hk. simpl. repeat split; try reflexivity. exact Hrun.
    + destruct (isSome e1 || isSome e2); simpl.
      * rewrite Hk. simpl. repeat split; try reflexivity. exact Hrun.
      * apply stateChanged_false in Cb, Ca.
        destruct Cb as [Cb1 Cb2], Ca as [Ca1 Ca2].
        destruct k; simpl in *; rewrite Hk in *; simpl in *;
          repeat split; try reflexivity; try assumption.
Qed.

(** A press after a frame, on a kind with a single active checkpoint [c]:
    the boost is graded by the time since the activation of [c] and lasts
    for what is left of the window of [c]. *)
Lemma reaction_measured_from_activation
    (tc : Q) (h : t) (k : ControlType) (c : CheckpointEvent)
    (now tStart tUpdate tTimer : Q) :
  isRunning (gameState h) = true ->
  100 <= now - ofControl k (inputCooldown h) ->
  activeOfType (TrackManager.checkpointTypeOf k)
    (TrackManager.activeCheckpoints (trackManager (updateControlStates tc h)))
  = [c] ->
  now - activatedAt c < duration c ->
  exists a,
    a == activatedAt c
    /\ carManager (handleControlInput k now tStart tUpdate tTimer
                     (updateControlStates tc h))
       = CarManager.addSpeedModifier increase
           (speedBonusFor (speedIncrease (gsTrack (gameState h))) (now - a))
           (duration c - (now - activatedAt c))
           tStart tUpdate (carManager h).
Proof.
  intros Hrun Hcd Hone Hopen.
  destruct (updateControlStates_syncs tc h k c Hrun Hone)
    as (_ & Ha & Hrun' & Htr & Hcool & Hcar).
  set (h1 := updateControlStates tc h) in *.
  assert (Hfirst : TrackManager.firstOfType (TrackManager.checkpointTypeOf k)
                     (TrackManager.activeCheckpoints (trackManager h1))
                   = Some c).
  { unfold TrackManager.firstOfType. unfold activeOfType in Hone.
    induction (TrackManager.activeCheckpoints (trackManager h1)) as [|x m IH];
      [discriminate|].
    simpl in *.
    destruct (TrackManager.typeEqb (ctype (snd x))
                (TrackManager.checkpointTypeOf k)).
    - simpl. congruence.
    - apply IH, Hone. }
  assert (Hact : TrackManager.isControlActive k now (trackManager h1) = true).
  { unfold TrackManager.isControlActive. rewrite Hfirst.
    apply Qltb_lt, Hopen. }
  rewrite <- Hcool in Hcd.
  destruct (green_press_state h1 k now tStart tUpdate tTimer Hrun' Hcd Hact)
    as (Hboost & _).
  destruct (remaining_when_active k now (trackManager h1) Hact)
    as (c' & Hc' & Hrem & Hmax & _).
  assert (c' = c) by congruence. subst c'.
  exists (csActivatedAt (ofControl k (activeControls (gameState h1)))).
  split; [exact Ha|].
  rewrite Hboost, Hmax, Hrem, Htr, Hcar. reflexivity.
Qed.

End HookFacts.

(** ** GameTimer *)

Section TimerFacts.

Lemma Math_round_near (x : Q) :
  x - (1 # 2) < GameTimer.Math_round x /\ GameTimer.Math_round x <= x + (1 # 2).
Proof.
  unfold GameTimer.Math_round.
  pose proof (Qfloor_le (x + (1 # 2))) as Hle.
  pose proof (Qlt_floor (x + (1 # 2))) as Hlt.
  rewrite inject_Z_plus in Hlt. change (inject_Z 1) with 1 in Hlt.
  split; lra.
Qed.

Lemma Math_round_compat (x y : Q) :
  x == y -> GameTimer.Math_round x == GameTimer.Math_round y.
Proof.
  intro H. unfold GameTimer.Math_round.
  assert (E : x + (1 # 2) == y + (1 # 2)) by lra.
  rewrite (Qfloor_comp _ _ E). reflexivity.
Qed.

(** X1: while the timer runs, the reported time is within 0.05 ms of the
    time since the start, and it is a whole number of tenths. *)
Theorem getCurrentTime_precision (now : Q) (tm : GameTimer.t) :
  GameTimer.isRunning tm = true ->
  let elapsed := now - GameTimer.startTime tm in
  elapsed - (1 # 20) < GameTimer.getCurrentTime now tm
  /\ GameTimer.getCurrentTime now tm <= elapsed + (1 # 20)
  /\ exists n : Z, GameTimer.getCurrentTime now tm * 10 == inject_Z n.
Proof.
  intro Hrun. cbv zeta. unfold GameTimer.getCurrentTime. rewrite Hrun. simpl.
  destruct (Math_round_near ((now - GameTimer.startTime tm) * 10)) as [H1 H2].
  set (r := GameTimer.Math_round ((now - GameTimer.startTime tm) * 10)) in *.
  assert (E : r / 10 == r * (1 # 10)) by (unfold Qdiv; reflexivity).
  split; [rewrite E; lra|]. split; [rewrite E; lra|].
  exists (Qfloor ((now - GameTimer.startTime tm) * 10 + (1 # 2))).
  rewrite E. unfold r, GameTimer.Math_round. lra.
Qed.

Lemma getCurrentTime_precision_witness :
  GameTimer.getCurrentTime (10037 # 10000)
    (GameTimer.start 0 GameTimer.create) <= (10037 # 10000) - 0 + (1 # 20).
Proof.
  apply (getCurrentTime_precision (10037 # 10000)
           (GameTimer.start 0 GameTimer.create)).
  reflexivity.
Defined.

Lemma deltas_bounded_aux (readings : list Q) :
  forall tm,
    GameTimer.isRunning tm = true ->
    GameTimer.monotone (GameTimer.lastFrameTime tm) readings ->
    Forall (fun d => 0 <= d /\ d <= 100) (fst (GameTimer.deltas readings tm))
    /\ GameTimer.total (fst (GameTimer.deltas readings tm))
       <= last readings (GameTimer.lastFrameTime tm) - GameTimer.lastFrameTime tm
    /\ (GameTimer.closeTogether (GameTimer.lastFrameTime tm) readings ->
        GameTimer.total (fst (GameTimer.deltas readings tm))
        == last readings (GameTimer.lastFrameTime tm)
           - GameTimer.lastFrameTime tm)
    /\ GameTimer.lastFrameTime (snd (GameTimer.deltas readings tm))
       = last readings (GameTimer.lastFrameTime tm).
Proof.
  induction readings as [|now rest IH]; intros tm Hrun Hmono.
  - simpl. split; [constructor|]. split; [lra|]. split; [intros _; lra|].
    reflexivity.
  - destruct Hmono as [Hle Hrest].
    cbn [GameTimer.deltas]. unfold GameTimer.getDeltaTime. rewrite Hrun.
    cbn [negb].
    set (tm1 := {| GameTimer.startTime := GameTimer.startTime tm;
                   GameTimer.lastFrameTime := now;
                   GameTimer.isRunning := true;
                   GameTimer.pausedTime := GameTimer.pausedTime tm;
                   GameTimer.totalPausedDuration :=
                     GameTimer.totalPausedDuration tm |}).
    destruct (IH tm1 eq_refl Hrest) as (Hall & Hsum & Heq & Hlast).
    assert (Hl : last (now :: rest) (GameTimer.lastFrameTime tm) = last rest now).
    { destruct rest as [|r rest']; [reflexivity|].
      change (last (now :: r :: rest') (GameTimer.lastFrameTime tm))
        with (last (r :: rest') (GameTimer.lastFrameTime tm)).
      clear. revert r. induction rest' as [|x xs IHx]; intro r; [reflexivity|].
      change (last (r :: x :: xs) (GameTimer.lastFrameTime tm))
        with (last (x :: xs) (GameTimer.lastFrameTime tm)).
      change (last (r :: x :: xs) now) with (last (x :: xs) now). apply IHx. }
    rewrite Hl.
    destruct (GameTimer.deltas rest tm1) as [ds tm2]. simpl in *.
    case_min (now - GameTimer.lastFrameTime tm) 100.
    + repeat split; try assumption.
      * constructor; [split; lra | exact Hall].
      * lra.
      * intros [_ Hc]. specialize (Heq Hc). lra.
    + repeat split; try assumption.
      * constructor; [split; lra | exact Hall].
      * lra.
      * intros [Hc _]. lra.
Qed.

(** X2: with clock readings that do not go back, every frame delta of a
    running timer lies in [0, 100], the deltas never add up to more than the
    time that passed, and they add up to exactly that time when no two
    readings are more than 100 ms apart. *)
Theorem deltas_bounded (readings : list Q) (tm : GameTimer.t) :
  GameTimer.isRunning tm = true ->
  GameTimer.monotone (GameTimer.lastFrameTime tm) readings ->
  Forall (fun d => 0 <= d /\ d <= 100) (fst (GameTimer.deltas readings tm))
  /\ GameTimer.total (fst (GameTimer.deltas readings tm))
     <= last readings (GameTimer.lastFrameTime tm) - GameTimer.lastFrameTime tm
  /\ (GameTimer.closeTogether (GameTimer.lastFrameTime tm) readings ->
      GameTimer.total (fst (GameTimer.deltas readings tm))
      == last readings (GameTimer.lastFrameTime tm)
         - GameTimer.lastFrameTime tm).
Proof.
  intros Hrun Hmono.
  destruct (deltas_bounded_aux readings tm Hrun Hmono) as (H1 & H2 & H3 & _).
  repeat split; assumption.
Qed.

Lemma deltas_bounded_witness :
  GameTimer.total
    (fst (GameTimer.deltas [16; 33; 400] (GameTimer.start 0 GameTimer.create)))
  <= 400 - 0.
Proof.
  apply (deltas_bounded [16; 33; 400] (GameTimer.start 0 GameTimer.create)).
  - reflexivity.
  - simpl. repeat split; vm_compute; discriminate.
Defined.

(** X3: stopping a running timer at a positive clock reading freezes the
    reported time at its value of that moment, whatever the clock shows
    later, and the frame delta of a stopped timer is 0. *)
Theorem stop_freezes_time (t : Q) (tm : GameTimer.t) :
  GameTimer.isRunning tm = true -> 0 < t ->
  forall now,
    GameTimer.getCurrentTime now (GameTimer.stop t tm)
    = GameTimer.getCurrentTime t tm
    /\ GameTimer.getDeltaTime now (GameTimer.stop t tm)
       = (0, GameTimer.stop t tm)
    /\ GameTimer.stop now (GameTimer.stop t tm) = GameTimer.stop t tm.
Proof.
  intros Hrun Ht now.
  unfold GameTimer.stop, GameTimer.getCurrentTime, GameTimer.getDeltaTime.
  rewrite Hrun. simpl. apply Qltb_lt in Ht. rewrite Ht. repeat split.
Qed.

Lemma stop_freezes_time_witness :
  GameTimer.getCurrentTime 99999
    (GameTimer.stop 20000 (GameTimer.start 5 GameTimer.create))
  = GameTimer.getCurrentTime 20000 (GameTimer.start 5 GameTimer.create).
Proof.
  apply (stop_freezes_time 20000 (GameTimer.start 5 GameTimer.create)).
  - reflexivity.
  - vm_compute. reflexivity.
Defined.

Lemma totalPausedDuration_zero (ops : list GameTimer.Op) :
  GameTimer.totalPausedDuration (GameTimer.run ops GameTimer.create) = 0.
Proof.
  assert (H : forall tm, GameTimer.totalPausedDuration tm = 0 ->
                GameTimer.totalPausedDuration (GameTimer.run ops tm) = 0).
  { induction ops as [|op ops IH]; intros tm Htm; simpl; [exact Htm|].
    apply IH. destruct op; simpl.
    - unfold GameTimer.start. destruct (negb _); simpl; exact Htm.
    - unfold GameTimer.stop. destruct (GameTimer.isRunning tm); simpl; exact Htm.
    - reflexivity.
    - unfold GameTimer.getDeltaTime. destruct (negb _); simpl; exact Htm. }
  apply H. reflexivity.
Qed.

(** X4: no method ever records a paused duration, so a timer that was
    stopped and is started again at [now] counts from zero: at a later
    reading it reports the time since [now], rounded to a tenth. *)
Theorem start_after_stop_counts_from_zero
    (ops : list GameTimer.Op) (now later : Q) :
  GameTimer.isRunning (GameTimer.run ops GameTimer.create) = false ->
  GameTimer.getCurrentTime later
    (GameTimer.start now (GameTimer.run ops GameTimer.create))
  == GameTimer.Math_round ((later - now) * 10) / 10
  /\ GameTimer.getCurrentTime now
       (GameTimer.start now (GameTimer.run ops GameTimer.create)) == 0.
Proof.
  intro Hstopped.
  pose proof (totalPausedDuration_zero ops) as Hz.
  assert (Hgen : forall l,
    GameTimer.getCurrentTime l
      (GameTimer.start now (GameTimer.run ops GameTimer.create))
    == GameTimer.Math_round ((l - now) * 10) / 10).
  { intro l. unfold GameTimer.start, GameTimer.getCurrentTime.
    rewrite Hstopped. simpl. rewrite Hz.
    assert (E : (l - (now - 0)) * 10 == (l - now) * 10) by lra.
    pose proof (Math_round_compat _ _ E) as Hr.
    unfold Qdiv. rewrite Hr. reflexivity. }
  split; [apply Hgen|]. rewrite Hgen.
  assert (E : (now - now) * 10 == 0) by lra.
  pose proof (Math_round_compat _ _ E) as Hr.
  unfold Qdiv. rewrite Hr. reflexivity.
Qed.

Lemma start_after_stop_counts_from_zero_witness :
  GameTimer.getCurrentTime 9000
    (GameTimer.start 9000
       (GameTimer.run [GameTimer.OpStart 0; GameTimer.OpStop 5000]
          GameTimer.create)) == 0.
Proof.
  apply (start_after_stop_counts_from_zero
           [GameTimer.OpStart 0; GameTimer.OpStop 5000] 9000 9000).
  reflexivity.
Defined.

End TimerFacts.

(** ** CarManager: the other methods *)

Section CarMore.
Import CarManager.

Lemma filter_unexpired_later (t t' : Q) (l : list SpeedModifier) :
  t <= t' ->
  filter (unexpired t') (filter (unexpired t) l) = filter (unexpired t') l.
Proof.
  intro Hle. induction l as [|m l IH]; simpl; [reflexivity|].
  destruct (unexpired t m) eqn:E; simpl.
  - rewrite IH. reflexivity.
  - assert (E' : unexpired t' m = false).
    { unfold unexpired in *. apply Qltb_ge in E. apply Qltb_ge. lra. }
    rewrite E'. exact IH.
Qed.

(** X5: pruning is lazy but unobservable: recomputing at a time [t'] after
    a recompute at an earlier time [t] gives the car that recomputing at
    [t'] alone gives, and [getActiveModifiers] sees the same modifiers.  In
    particular a recompute repeated at the same time changes nothing. *)
Theorem updateCurrentSpeed_absorbs_earlier (t t' : Q) (car : Car) :
  t <= t' ->
  updateCurrentSpeed t' (updateCurrentSpeed t car) = updateCurrentSpeed t' car
  /\ getActiveModifiers t' (updateCurrentSpeed t car)
     = getActiveModifiers t' car.
Proof.
  intro Hle. unfold updateCurrentSpeed, getActiveModifiers. simpl.
  rewrite (filter_unexpired_later t t' _ Hle). split; reflexivity.
Qed.

Lemma updateCurrentSpeed_absorbs_earlier_witness :
  updateCurrentSpeed 1500 (updateCurrentSpeed 300 decreaseFirst)
  = updateCurrentSpeed 1500 decreaseFirst.
Proof.
  apply (updateCurrentSpeed_absorbs_earlier 300 1500 decreaseFirst).
  vm_compute. discriminate.
Defined.







(** X8: on a track of positive length the progress percentage never
    exceeds 100, is not negative for a car at or past the start, and is 100
    exactly when the race is complete. *)
Theorem getProgressPercentage_complete (trackDistance : Q) (car : Car) :
  0 < trackDistance ->
  getProgressPercentage trackDistance car <= 100
  /\ (0 <= distanceCovered car -> 0 <= getProgressPercentage trackDistance car)
  /\ (getProgressPercentage trackDistance car == 100
      <-> isRaceComplete trackDistance car = true).
Proof.
  intro HT. unfold getProgressPercentage, isRaceComplete.
  rewrite Qle_bool_iff.
  assert (Hd : distanceCovered car == (distanceCovered car / trackDistance)
                                      * trackDistance).
  { field. lra. }
  set (q := distanceCovered car / trackDistance) in *.
  assert (Hq1 : 1 <= q <-> trackDistance <= distanceCovered car).
  { rewrite Hd. split; intro H.
    - assert (0 <= (q - 1) * trackDistance)
        by (apply Qmult_le_0_compat; lra).
      assert ((q - 1) * trackDistance == q * trackDistance - trackDistance)
        by ring. lra.
    - destruct (Qlt_le_dec q 1) as [Hlt|Hge]; [|exact Hge]. exfalso.
      assert (0 < (1 - q) * trackDistance)
        by (apply Qmult_lt_0_compat; lra).
      assert ((1 - q) * trackDistance == trackDistance - q * trackDistance)
        by ring. lra. }
  assert (Hq0 : 0 <= distanceCovered car -> 0 <= q).
  { intro H0. destruct (Qlt_le_dec q 0) as [Hlt|Hge]; [|exact Hge]. exfalso.
    assert (0 < (0 - q) * trackDistance)
      by (apply Qmult_lt_0_compat; lra).
    assert ((0 - q) * trackDistance == - (q * trackDistance)) by ring. lra. }
  case_min (q * 100) 100.
  - split; [lra|]. split; [intro H0; specialize (Hq0 H0); lra|].
    rewrite <- Hq1. split; intro; lra.
  - split; [lra|]. split; [intros _; lra|].
    rewrite <- Hq1. split; intro; lra.
Qed.

Lemma getProgressPercentage_complete_witness :
  getProgressPercentage 1000 (updatePosition 1000000 1000 (reset 50)) == 100.
Proof.
  apply (getProgressPercentage_complete 1000
           (updatePosition 1000000 1000 (reset 50))).
  - vm_compute. reflexivity.
  - reflexivity.
Defined.

Lemma checkModifiers_iff (ms : list SpeedModifier) :
  Validation.checkModifiers ms = Validation.Returns
  <-> Forall positiveModifier ms.
Proof.
  induction ms as [|m ms IH]; simpl.
  - split; [constructor | reflexivity].
  - unfold positiveModifier at 1.
    destruct (Qle_bool (amount m) 0) eqn:Ea; simpl.
    + apply Qle_bool_iff in Ea. split; [discriminate|].
      intro H. inversion H as [|? ? Hm _]; subst. destruct Hm. lra.
    + apply Qle_bool_false in Ea.
      destruct (Qle_bool (mduration m) 0) eqn:Ed; simpl.
      * apply Qle_bool_iff in Ed. split; [discriminate|].
        intro H. inversion H as [|? ? Hm _]; subst. destruct Hm as (_ & ? & _).
        lra.
      * apply Qle_bool_false in Ed.
        destruct (Qltb (startTime m) 0) eqn:Es; simpl.
        -- apply Qltb_lt in Es. split; [discriminate|].
           intro H. inversion H as [|? ? Hm _]; subst.
           destruct Hm as (_ & _ & ?). lra.
        -- apply Qltb_ge in Es. rewrite IH. split.
           ++ intro H. constructor; [repeat split; assumption | exact H].
           ++ intro H. inversion H; assumption.
Qed.

(** [validateCar] returns normally exactly on the cars with distance and
    speed not negative, positive base speed and positive modifiers. *)
Lemma validateCar_iff (car : Car) :
  Validation.validateCar car = Validation.Returns
  <-> 0 <= distanceCovered car /\ 0 <= currentSpeed car /\ 0 < baseSpeed car
      /\ Forall positiveModifier (speedModifiers car).
Proof.
  unfold Validation.validateCar.
  destruct (Qltb (distanceCovered car) 0) eqn:E1; simpl.
  { apply Qltb_lt in E1. split; [discriminate | intros (? & _); lra]. }
  apply Qltb_ge in E1.
  destruct (Qltb (currentSpeed car) 0) eqn:E2; simpl.
  { apply Qltb_lt in E2. split; [discriminate | intros (_ & ? & _); lra]. }
  apply Qltb_ge in E2.
  destruct (Qle_bool (baseSpeed car) 0) eqn:E3; simpl.
  { apply Qle_bool_iff in E3.
    split; [discriminate | intros (_ & _ & ? & _); lra]. }
  apply Qle_bool_false in E3.
  rewrite checkModifiers_iff. tauto.
Qed.

Lemma positiveModifier_increase_nonneg (ms : list SpeedModifier) :
  Forall positiveModifier ms ->
  Forall (fun m => isIncrease m -> nonnegAmount m) ms.
Proof.
  intro H. eapply Forall_impl; [|exact H].
  intros m (Ha & _) _. unfold nonnegAmount. lra.
Qed.

Lemma validateCar_step (car : Car) (op : Op) :
  Validation.validateCar car = Validation.Returns ->
  positiveOp op ->
  Validation.validateCar (step car op) = Validation.Returns.
Proof.
  intros Hv Hop.
  apply validateCar_iff. apply validateCar_iff in Hv.
  destruct Hv as (Hd & Hs & Hb & Hm).
  destruct op as [dt td|ty amt dur tStart tUpdate|t|base]; simpl in *.
  - destruct Hop as [Hdt Htd]. repeat split; try assumption.
    assert (0 <= currentSpeed car * (dt / 1000)).
    { apply Qmult_le_0_compat; [exact Hs|].
      apply Qle_shift_div_l; lra. }
    case_min (distanceCovered car + currentSpeed car * (dt / 1000)) td; lra.
  - destruct Hop as (Ha & Hdur & Hst).
    assert (Hall : Forall positiveModifier
              (filter (unexpired tUpdate)
                 (speedModifiers car
                  ++ [{| mtype := ty; amount := amt; startTime := tStart;
                         mduration := dur |}]))).
    { apply Forall_forall. intros m Hin. apply filter_In in Hin.
      destruct Hin as [Hin _]. apply in_app_or in Hin.
      destruct Hin as [Hin|[<-|[]]].
      - rewrite Forall_forall in Hm. auto.
      - repeat split; simpl; assumption. }
    repeat split; try assumption.
    apply fold_applyModifier_nonneg; [lra|].
    apply positiveModifier_increase_nonneg, Hall.
  - assert (Hall : Forall positiveModifier
              (filter (unexpired t) (speedModifiers car))).
    { apply Forall_forall. intros m Hin. apply filter_In in Hin.
      rewrite Forall_forall in Hm. apply Hm, Hin. }
    repeat split; try assumption.
    apply fold_applyModifier_nonneg; [lra|].
    apply positiveModifier_increase_nonneg, Hall.
  - repeat split; try lra. constructor.
Qed.

(** X9: the manager keeps a car valid: from a car that [validateCar]
    accepts, every method called with positive magnitudes, durations and
    base speeds and with times and deltas that are not negative leads to a
    car that [validateCar] accepts. *)
Theorem validateCar_preserved (ops : list Op) (car : Car) :
  Validation.validateCar car = Validation.Returns ->
  Forall positiveOp ops ->
  Validation.validateCar (run ops car) = Validation.Returns.
Proof.
  revert car. induction ops as [|op ops IH]; intros car Hv Hops; [exact Hv|].
  inversion Hops as [|? ? Hop Hrest]; subst. simpl. apply IH; [|exact Hrest].
  apply validateCar_step; assumption.
Qed.

Lemma validateCar_preserved_witness :
  Validation.validateCar
    (run [OpAddSpeedModifier decrease 10 1000 150 150;
          OpUpdatePosition 16 1000; OpUpdateCurrentSpeed 166]
         (reset 50)) = Validation.Returns.
Proof.
  apply (validateCar_preserved
           [OpAddSpeedModifier decrease 10 1000 150 150;
            OpUpdatePosition 16 1000; OpUpdateCurrentSpeed 166] (reset 50)).
  - reflexivity.
  - repeat constructor; simpl; try (vm_compute; congruence).
Defined.

End CarMore.

(** ** TrackManager: invariants and the other methods *)

Section TrackMore.
Import TrackManager.

Lemma Map_set_fresh (k : Key) (v : CheckpointEvent)
    (m : list (Key * CheckpointEvent)) :
  Map_has k m = false -> Map_set k v m = m ++ [(k, v)].
Proof. intro H. unfold Map_set. rewrite H. reflexivity. Qed.

Lemma Map_has_InA (k : Key) (m : list (Key * CheckpointEvent)) :
  Map_has k m = true <-> InA keyEq k (map fst m).
Proof.
  unfold Map_has. rewrite existsb_exists, InA_alt. split.
  - intros (kv & Hin & Hk). exists (fst kv). split.
    + apply keyEqb_iff, Hk.
    + apply in_map, Hin.
  - intros (k' & Hk & Hin). apply in_map_iff in Hin.
    destruct Hin as (kv & <- & Hin). exists kv. split; [exact Hin|].
    apply keyEqb_iff, Hk.
Qed.

Lemma NoDupA_keys_filter (p : Key * CheckpointEvent -> bool)
    (m : list (Key * CheckpointEvent)) :
  NoDupA keyEq (map fst m) -> NoDupA keyEq (map fst (filter p m)).
Proof.
  induction m as [|x m IH]; simpl; intro H; [constructor|].
  inversion H as [|? ? Hx Hm]; subst.
  destruct (p x); simpl; [|apply IH, Hm].
  constructor; [|apply IH, Hm].
  intro Hin. apply Hx. apply InA_alt in Hin. destruct Hin as (k & Hk & Hin).
  apply InA_alt. exists k. split; [exact Hk|].
  apply in_map_iff in Hin. destruct Hin as (kv & <- & Hin).
  apply filter_In in Hin. apply in_map, Hin.
Qed.

Lemma call_keeps_invariant (c : Call) (tm : t) :
  wellKeyed tm /\ activeProcessed tm ->
  wellKeyed (snd (call c tm)) /\ activeProcessed (snd (call c tm)).
Proof.
  intros [[Hent Hnd] Hproc].
  assert (Hcheck : forall ty d now,
            wellKeyed (snd (check ty d now tm))
            /\ activeProcessed (snd (check ty d now tm))).
  { intros ty d now.
    assert (Hc : check ty d now tm
                 = checkLoop ty (pointsOf ty (track tm)) d now tm)
      by (destruct ty; reflexivity).
    rewrite Hc.
    pose proof (checkLoop_spec ty (pointsOf ty (track tm)) d now tm) as S.
    destruct (fst (checkLoop ty (pointsOf ty (track tm)) d now tm))
      as [e|] eqn:E.
    - destruct S as (before & after & Hp & _ & Hq & He & Hs).
      rewrite Hs.
      assert (Hty : ctype e = ty) by (rewrite He; reflexivity).
      assert (Hfresh : Map_has (keyOf e) (activeCheckpoints tm) = false).
      { unfold qualifies, pending in Hq.
        apply andb_true_iff in Hq. destruct Hq as [_ Hq].
        apply andb_true_iff in Hq. destruct Hq as [Hq _].
        apply negb_true_iff in Hq. unfold keyOf. rewrite Hty. exact Hq. }
      split; [split|]; simpl.
      + rewrite (Map_set_fresh _ _ _ Hfresh). apply Forall_app. split.
        * exact Hent.
        * constructor; [|constructor]. simpl. split; [reflexivity|].
          split; [rewrite He; reflexivity|].
          rewrite Hty, Hp. apply in_or_app. right. left. reflexivity.
      + rewrite (Map_set_fresh _ _ _ Hfresh), map_app. simpl.
        apply NoDupA_app; [split; [intro; apply keyEq_refl
                                  | intros ? ?; apply keyEq_sym
                                  | intros ? ? ?; apply keyEq_trans]
                          | exact Hnd | | ].
        * constructor; [intro H; inversion H | constructor].
        * intros k Hk1 Hk2. inversion Hk2 as [? ? Hke|? ? Hnil]; subst;
            [|inversion Hnil].
          apply Map_has_InA in Hk1.
          rewrite (Map_has_compat _ _ _ Hke) in Hk1. congruence.
      + intros k Hk. simpl in *. rewrite Map_has_set in Hk.
        rewrite Set_has_add. apply orb_true_iff in Hk.
        destruct Hk as [Hk|Hk]; [rewrite (Hproc k Hk)|rewrite Hk].
        * reflexivity.
        * apply orb_true_r.
    - destruct S as [Hs _]. rewrite Hs. split; [split|]; assumption. }
  assert (Hfilter : forall keys,
            wellKeyed {| track := track tm;
                         activeCheckpoints :=
                           fold_left (fun m k => Map_delete k m) keys
                             (activeCheckpoints tm);
                         processedCheckpoints := processedCheckpoints tm |}
            /\ activeProcessed
                 {| track := track tm;
                    activeCheckpoints :=
                      fold_left (fun m k => Map_delete k m) keys
                        (activeCheckpoints tm);
                    processedCheckpoints := processedCheckpoints tm |}).
  { intro keys. rewrite fold_Map_delete. split; [split|]; simpl.
    - apply Forall_forall. intros kv Hin. apply filter_In in Hin.
      rewrite Forall_forall in Hent. apply Hent, Hin.
    - apply NoDupA_keys_filter, Hnd.
    - intros k Hk. apply Hproc. unfold Map_has in *.
      apply existsb_exists in Hk. destruct Hk as (kv & Hin & Hk).
      apply filter_In in Hin. apply existsb_exists. exists kv. tauto. }
  destruct c as [d now|d now|now|k]; simpl.
  - apply (Hcheck brake_point).
  - apply (Hcheck straight_point).
  - apply Hfilter.
  - apply Hfilter.
Qed.

(** X10: in every state reached from a new manager by check,
    [getControlStates] and [deactivateControl] calls, each active checkpoint
    is stored once, under the key of its own event, with the window of the
    track and a distance of its array, and is also in the processed set;
    the test on [activeCheckpoints] in the check methods is thus implied by
    the test on [processedCheckpoints]. *)
Theorem active_checkpoints_are_processed (tr : Track) (cs : list Call) :
  let tm := snd (run cs (create tr)) in
  wellKeyed tm
  /\ track tm = tr
  /\ (forall k, Map_has k (activeCheckpoints tm) = true ->
                Set_has k (processedCheckpoints tm) = true)
  /\ (forall ty d p,
        qualifies ty d tm p
        = Qle_bool p d && negb (Set_has (ty, p) (processedCheckpoints tm))).
Proof.
  cbv zeta.
  assert (H : forall tm0, wellKeyed tm0 /\ activeProcessed tm0 ->
            wellKeyed (snd (run cs tm0)) /\ activeProcessed (snd (run cs tm0))).
  { induction cs as [|c cs IH]; intros tm0 H0; [exact H0|].
    simpl. pose proof (call_keeps_invariant c tm0 H0) as H1.
    destruct (call c tm0) as [ev tm1]. simpl in H1.
    specialize (IH tm1 H1). destruct (run cs tm1) as [evs tm2]. exact IH. }
  destruct (H (create tr)) as [Hw Hp].
  { split; [split; simpl; constructor|]. intros k Hk. discriminate. }
  destruct (run_processed cs (create tr)) as (Ht & _).
  split; [exact Hw|]. split; [exact Ht|]. split; [exact Hp|].
  intros ty d p. unfold qualifies, pending.
  destruct (Set_has (ty, p) (processedCheckpoints (snd (run cs (create tr)))))
    eqn:Es; simpl.
  - rewrite !andb_false_r. reflexivity.
  - destruct (Map_has (ty, p) (activeCheckpoints (snd (run cs (create tr)))))
      eqn:Em; [|reflexivity].
    apply Hp in Em. congruence.
Qed.

Lemma active_checkpoints_are_processed_witness :
  Set_has (brake_point, 200) (processedCheckpoints overlapped) = true.
Proof.
  apply (active_checkpoints_are_processed closeBrakes
           [CheckBrakePoints 250 0; GetControlStates 0;
            CheckBrakePoints 250 500; GetControlStates 500]).
  reflexivity.
Defined.

(** X11: [getControlStates] is idempotent at a given time: a second call
    reports the same two control states and removes nothing more. *)
Theorem getControlStates_idempotent (now : Q) (tm : t) :
  getControlStates now (snd (getControlStates now tm))
  = getControlStates now tm.
Proof.
  pose proof (getControlStates_live now tm) as Hlive.
  pose proof (getControlStates_states now tm) as Hst.
  destruct (getControlStates now tm) as [st tm1] eqn:E. simpl in *.
  assert (Hnone : filter (fun kv => expired now (snd kv))
                    (activeCheckpoints tm1) = []).
  { clear - Hlive. induction (activeCheckpoints tm1) as [|x m IH];
      [reflexivity|].
    inversion Hlive as [|? ? Hx Hm]; subst. simpl. rewrite Hx. apply IH, Hm. }
  unfold getControlStates at 1. rewrite Hnone. simpl. rewrite <- Hst.
  f_equal. destruct tm1 as [tr ac pr]. simpl.
  unfold getControlStates in E. injection E as _ E.
  rewrite <- E. reflexivity.
Qed.

Lemma fold_setState_isActive (k : ControlType) (now : Q)
    (m : list (Key * CheckpointEvent)) :
  forall st,
    isActive (stateOfControl k (fold_left (setState now) m st)) = true
    <-> isActive (stateOfControl k st) = true
        \/ exists kv, In kv m /\ ctype (snd kv) = checkpointTypeOf k
                      /\ now - activatedAt (snd kv) < duration (snd kv).
Proof.
  induction m as [|x m IH]; intro st; simpl.
  - split; [auto | intros [H|(kv & [] & _)]; exact H].
  - rewrite IH. unfold setState.
    destruct (Qltb (now - activatedAt (snd x)) (duration (snd x))) eqn:E.
    + apply Qltb_lt in E. split.
      * intros [H|(kv & Hin & Hk)].
        -- destruct k, (ctype (snd x)) eqn:Ety; simpl in *;
             try (left; exact H);
             right; exists x; repeat split; auto.
        -- right. exists kv. tauto.
      * intros [H|(kv & [<-|Hin] & Hty & Hl)].
        -- left. destruct k, (ctype (snd x)); simpl in *; auto.
        -- left. rewrite Hty. destruct k; reflexivity.
        -- right. exists kv. tauto.
    + apply Qltb_ge in E. split.
      * intros [H|(kv & Hin & Hk)]; [left; exact H|].
        right. exists kv. tauto.
      * intros [H|(kv & [<-|Hin] & Hty & Hl)]; [left; exact H | lra |].
        right. exists kv. tauto.
Qed.

Lemma NoDupA_keys_inj (m : list (Key * CheckpointEvent))
    (kv kv' : Key * CheckpointEvent) :
  NoDupA keyEq (map fst m) -> In kv m -> In kv' m ->
  keyEq (fst kv) (fst kv') -> kv = kv'.
Proof.
  induction m as [|x m IH]; simpl; intros H H1 H2 E; [contradiction|].
  inversion H as [|? ? Hx Hm]; subst.
  destruct H1 as [->|H1], H2 as [->|H2].
  - reflexivity.
  - exfalso. apply Hx. apply InA_alt. exists (fst kv').
    split; [exact E | apply in_map, H2].
  - exfalso. apply Hx. apply InA_alt. exists (fst kv).
    split; [apply keyEq_sym, E | apply in_map, H1].
  - apply IH; assumption.
Qed.

(** X12: when no key occurs twice among the active checkpoints,
    [getControlStates] reports a control as active exactly when an active
    checkpoint of its type is still inside its window, and the checkpoints
    it keeps are exactly those inside their window. *)
Theorem getControlStates_active_iff (now : Q) (tm : t) (k : ControlType) :
  NoDupA keyEq (map fst (activeCheckpoints tm)) ->
  (isActive (stateOfControl k (fst (getControlStates now tm))) = true
   <-> exists kv, In kv (activeCheckpoints tm)
                  /\ ctype (snd kv) = checkpointTypeOf k
                  /\ now - activatedAt (snd kv) < duration (snd kv))
  /\ activeCheckpoints (snd (getControlStates now tm))
     = filter (fun kv => negb (expired now (snd kv))) (activeCheckpoints tm).
Proof.
  intro Hnd.
  assert (Hkeep : activeCheckpoints (snd (getControlStates now tm))
                  = filter (fun kv => negb (expired now (snd kv)))
                      (activeCheckpoints tm)).
  { unfold getControlStates. simpl. rewrite fold_Map_delete.
    apply filter_ext_in. intros kv Hin.
    destruct (expired now (snd kv)) eqn:E; simpl.
    - apply negb_false_iff. apply existsb_exists. exists (fst kv). split.
      + apply in_map. apply filter_In. split; assumption.
      + apply keyEqb_iff, keyEq_refl.
    - apply negb_true_iff.
      destruct (existsb _ _) eqn:Ex; [|reflexivity]. exfalso.
      apply existsb_exists in Ex. destruct Ex as (k' & Hk' & Heq).
      apply in_map_iff in Hk'. destruct Hk' as (kv' & <- & Hin').
      apply filter_In in Hin'. destruct Hin' as [Hin' Hexp].
      apply keyEqb_iff in Heq.
      assert (kv' = kv) by (apply (NoDupA_keys_inj _ _ _ Hnd Hin' Hin Heq)).
      subst kv'. congruence. }
  split; [|exact Hkeep].
  rewrite getControlStates_states, fold_setState_isActive, Hkeep.
  split.
  - intros [H|(kv & Hin & Hty & Hl)]; [destruct k; discriminate|].
    apply filter_In in Hin. exists kv. tauto.
  - intros (kv & Hin & Hty & Hl). right. exists kv. split; [|tauto].
    apply filter_In. split; [exact Hin|].
    apply negb_true_iff. unfold expired. apply Qle_bool_false. exact Hl.
Qed.

Lemma getControlStates_active_iff_witness :
  isActive (stateOfControl brake (fst (getControlStates 2100 overlapped)))
  = true.
Proof.
  apply (getControlStates_active_iff 2100 overlapped brake).
  - repeat constructor; intro H; inversion H as [? ? E|? ? E]; subst;
      try (inversion E; fail); destruct E as [_ E]; vm_compute in E;
      discriminate.
  - exists ((brake_point, 200),
            {| ctype := brake_point; cdistance := 200; activatedAt := 500;
               duration := 2000 |}).
    split; [right; left; reflexivity|]. split; [reflexivity|].
    vm_compute. reflexivity.
Defined.

(** X13: the two timing queries agree: a control is reported active
    exactly when its remaining duration is positive, and the remaining
    duration is never negative. *)
Theorem isControlActive_iff_remaining (k : ControlType) (now : Q) (tm : t) :
  (isControlActive k now tm = true <-> 0 < getRemainingDuration k now tm)
  /\ 0 <= getRemainingDuration k now tm.
Proof.
  unfold isControlActive, getRemainingDuration.
  destruct (firstOfType (checkpointTypeOf k) (activeCheckpoints tm)) as [c|].
  - rewrite Qltb_lt.
    case_max 0 (duration c - (now - activatedAt c));
      (split; [split; intro; lra | lra]).
  - split; [split; [discriminate | intro; lra] | lra].
Qed.

Lemma isControlActive_iff_remaining_witness :
  0 < getRemainingDuration brake 600 overlapped.
Proof.
  apply (isControlActive_iff_remaining brake 600 overlapped).
  reflexivity.
Defined.

Lemma find_filter_implied {A} (f g : A -> bool) (l : list A) :
  (forall x, f x = true -> g x = true) ->
  find f (filter g l) = find f l.
Proof.
  intro H. induction l as [|x l IH]; simpl; [reflexivity|].
  destruct (g x) eqn:Eg; simpl.
  - destruct (f x); [reflexivity | exact IH].
  - destruct (f x) eqn:Ef; [|exact IH].
    apply H in Ef. congruence.
Qed.

Lemma deactivateControl_filter (k : ControlType) (tm : t) :
  wellKeyed tm ->
  activeCheckpoints (deactivateControl k tm)
  = filter (fun kv => negb (typeEqb (ctype (snd kv)) (checkpointTypeOf k)))
      (activeCheckpoints tm).
Proof.
  intros [Hent _]. unfold deactivateControl. simpl. rewrite fold_Map_delete.
  apply filter_ext_in. intros kv Hin. f_equal.
  rewrite Forall_forall in Hent.
  destruct (typeEqb (ctype (snd kv)) (checkpointTypeOf k)) eqn:E.
  - apply existsb_exists. exists (fst kv). split.
    + apply in_map. apply filter_In. split; assumption.
    + apply keyEqb_iff, keyEq_refl.
  - destruct (existsb _ _) eqn:Ex; [|reflexivity]. exfalso.
    apply existsb_exists in Ex. destruct Ex as (k' & Hk' & Heq).
    apply in_map_iff in Hk'. destruct Hk' as (kv' & <- & Hin').
    apply filter_In in Hin'. destruct Hin' as [Hin' Hty].
    apply keyEqb_iff in Heq. destruct Heq as [Heq _].
    destruct (Hent kv Hin) as [Hk _]. destruct (Hent kv' Hin') as [Hk' _].
    rewrite Hk, Hk' in Heq. simpl in Heq. rewrite Heq in Hty. congruence.
Qed.

(** X14: [deactivateControl] removes exactly the active checkpoints of the
    control's type: the control's remaining duration drops to 0, while the
    other control keeps its answer to [isControlActive] and
    [getRemainingDuration], and the processed set is untouched. *)
Theorem deactivateControl_spares_other (k : ControlType) (tm : t) :
  wellKeyed tm ->
  activeCheckpoints (deactivateControl k tm)
  = filter (fun kv => negb (typeEqb (ctype (snd kv)) (checkpointTypeOf k)))
      (activeCheckpoints tm)
  /\ (forall now,
        isControlActive (otherControl k) now (deactivateControl k tm)
        = isControlActive (otherControl k) now tm
        /\ getRemainingDuration (otherControl k) now (deactivateControl k tm)
           = getRemainingDuration (otherControl k) now tm)
  /\ (forall now, getRemainingDuration k now (deactivateControl k tm) = 0)
  /\ processedCheckpoints (deactivateControl k tm) = processedCheckpoints tm.
Proof.
  intro Hw. pose proof (deactivateControl_filter k tm Hw) as Hf.
  split; [exact Hf|]. split; [|split; [|reflexivity]].
  - intro now. unfold isControlActive, getRemainingDuration, firstOfType.
    rewrite Hf, find_filter_implied; [split; reflexivity|].
    intros kv Hty. destruct k, (ctype (snd kv)); simpl in *; congruence.
  - intro now. unfold getRemainingDuration.
    rewrite (deactivateControl_clears k tm). reflexivity.
Qed.

Lemma deactivateControl_spares_other_witness :
  isControlActive acceleration 100 (deactivateControl brake bothKinds)
  = isControlActive acceleration 100 bothKinds.
Proof.
  apply (deactivateControl_spares_other brake bothKinds).
  split.
  - repeat constructor.
  - repeat constructor; intro H; inversion H as [? ? E|? ? E]; subst;
      try (inversion E; fail); destruct E as [E _]; discriminate.
Defined.

Lemma filter_length_decreases {A} (f f' : A -> bool) (l : list A) (x : A) :
  (forall y, f' y = true -> f y = true) ->
  In x l -> f x = true -> f' x = false ->
  (length (filter f' l) < length (filter f l))%nat.
Proof.
  intros Himp Hin Hfx Hfx'.
  assert (Hle : forall l0, (length (filter f' l0) <= length (filter f l0))%nat).
  { induction l0 as [|y l0 IH]; simpl; [lia|].
    destruct (f' y) eqn:E'.
    - rewrite (Himp y E'). simpl. lia.
    - destruct (f y); simpl; lia. }
  induction l as [|y l IH]; [destruct Hin|].
  simpl. destruct Hin as [->|Hin].
  - rewrite Hfx, Hfx'. simpl. specialize (Hle l). lia.
  - specialize (IH Hin). destruct (f' y) eqn:E'.
    + rewrite (Himp y E'). simpl. lia.
    + destruct (f y); simpl; lia.
Qed.

Lemma check_progress (ty : CheckpointType) (d now : Q) (tm : t) :
  let tm' := snd (check ty d now tm) in
  track tm' = track tm
  /\ (length (filter (qualifies ty d tm') (pointsOf ty (track tm)))
      <= pred (length (filter (qualifies ty d tm) (pointsOf ty (track tm)))))%nat.
Proof.
  cbv zeta.
  assert (Hc : check ty d now tm = checkLoop ty (pointsOf ty (track tm)) d now tm)
    by (destruct ty; reflexivity).
  rewrite Hc.
  pose proof (checkLoop_spec ty (pointsOf ty (track tm)) d now tm) as S.
  destruct (fst (checkLoop ty (pointsOf ty (track tm)) d now tm)) as [e|] eqn:E.
  - destruct S as (before & after & Hp & _ & Hq & He & Hs). rewrite Hs.
    split; [reflexivity|].
    assert (Hty : ctype e = ty) by (rewrite He; reflexivity).
    set (tm' := {| track := track tm;
                   activeCheckpoints := Map_set (keyOf e) e (activeCheckpoints tm);
                   processedCheckpoints :=
                     Set_add (keyOf e) (processedCheckpoints tm) |}).
    assert (Hlt : (length (filter (qualifies ty d tm') (pointsOf ty (track tm)))
                   < length (filter (qualifies ty d tm) (pointsOf ty (track tm))))%nat).
    { apply (filter_length_decreases _ _ _ (cdistance e)).
      - intros p Hp'. unfold qualifies, pending in *. simpl in Hp'.
        rewrite Map_has_set, Set_has_add in Hp'.
        apply andb_true_iff in Hp'. destruct Hp' as [Hle Hp'].
        apply andb_true_iff in Hp'. destruct Hp' as [H1 H2].
        apply negb_true_iff in H1, H2.
        apply orb_false_iff in H1, H2. destruct H1 as [H1 _], H2 as [H2 _].
        rewrite Hle, H1, H2. reflexivity.
      - rewrite Hp. apply in_or_app. right. left. reflexivity.
      - exact Hq.
      - unfold qualifies, pending. simpl. rewrite Set_has_add.
        assert (Hk : keyEqb (ty, cdistance e) (keyOf e) = true).
        { apply keyEqb_iff. split; simpl; [congruence | reflexivity]. }
        rewrite Hk, orb_true_r. simpl. rewrite !andb_false_r. reflexivity. }
    lia.
  - destruct S as [Hs Hall]. rewrite Hs. split; [reflexivity|].
    assert (Hz : filter (qualifies ty d tm) (pointsOf ty (track tm)) = []).
    { clear - Hall. induction (pointsOf ty (track tm)) as [|p l IH];
        [reflexivity|].
      inversion Hall as [|? ? Hp Hl]; subst. simpl. rewrite Hp. apply IH, Hl. }
    rewrite Hz. simpl. lia.
Qed.

(** X15: every reached trigger is fired: after as many calls of a check
    method at one position as the array has points, at whatever times, no
    point of that array is both reached and pending, so a further call
    returns nothing. *)
Theorem repeatCheck_exhausts
    (ty : CheckpointType) (d : Q) (times : list Q) (tm : t) :
  (length (pointsOf ty (track tm)) <= length times)%nat ->
  Forall (fun p => qualifies ty d (repeatCheck ty d times tm) p = false)
    (pointsOf ty (track tm))
  /\ (forall now, fst (check ty d now (repeatCheck ty d times tm)) = None).
Proof.
  intro Hlen.
  assert (Hgen : forall times tm,
    track (repeatCheck ty d times tm) = track tm
    /\ (length (filter (qualifies ty d (repeatCheck ty d times tm))
                  (pointsOf ty (track tm)))
        <= length (filter (qualifies ty d tm) (pointsOf ty (track tm)))
           - length times)%nat).
  { clear. induction times as [|now times IH]; intro tm; simpl.
    - split; [reflexivity | lia].
    - destruct (check_progress ty d now tm) as [Ht Hp].
      destruct (IH (snd (check ty d now tm))) as [Ht' Hp'].
      unfold repeatCheck in *. rewrite Ht in *. split; [exact Ht'|]. lia. }
  destruct (Hgen times tm) as [Ht Hcount].
  assert (Hz : length (filter (qualifies ty d (repeatCheck ty d times tm))
                         (pointsOf ty (track tm))) = 0%nat).
  { pose proof (filter_length_le (qualifies ty d tm) (pointsOf ty (track tm))).
    lia. }
  assert (Hall : Forall (fun p => qualifies ty d (repeatCheck ty d times tm) p
                                  = false) (pointsOf ty (track tm))).
  { apply Forall_forall. intros p Hin.
    destruct (qualifies ty d (repeatCheck ty d times tm) p) eqn:E;
      [|reflexivity].
    exfalso.
    assert (Hinf : In p (filter (qualifies ty d (repeatCheck ty d times tm))
                           (pointsOf ty (track tm))))
      by (apply filter_In; split; assumption).
    destruct (filter _ _); [destruct Hinf | discriminate]. }
  split; [exact Hall|].
  intro now.
  assert (Hc : forall tm0, check ty d now tm0
               = checkLoop ty (pointsOf ty (track tm0)) d now tm0)
    by (intro; destruct ty; reflexivity).
  rewrite Hc, Ht.
  pose proof (checkLoop_spec ty (pointsOf ty (track tm)) d now
                (repeatCheck ty d times tm)) as S.
  destruct (fst (checkLoop ty (pointsOf ty (track tm)) d now
                   (repeatCheck ty d times tm))) as [e|]; [|reflexivity].
  exfalso. destruct S as (before & after & Hp & _ & Hq & _).
  rewrite Forall_forall in Hall.
  rewrite (Hall (cdistance e)) in Hq; [discriminate|].
  rewrite Hp. apply in_or_app. right. left. reflexivity.
Qed.

Lemma repeatCheck_exhausts_witness :
  fst (check brake_point 250 9
         (repeatCheck brake_point 250 [0; 16] (create closeBrakes))) = None.
Proof.
  apply (repeatCheck_exhausts brake_point 250 [0; 16] (create closeBrakes)).
  simpl. lia.
Defined.

End TrackMore.

(** ** Checkpoint timing helpers *)

Section CheckpointValidationFacts.
Import CheckpointValidation.

(** X16: [validateInputTiming] accepts an input exactly when
    [isInputWithinWindow] does; it grades the input as a penalty exactly
    when it rejects it, and the reaction time it reports is never negative. *)
Theorem validateInputTiming_valid_iff (input : PlayerInput) (ev : CheckpointEvent) :
  isValid (validateInputTiming input (Some ev))
  = isInputWithinWindow (timestamp input) (activatedAt ev) (duration ev)
  /\ (timingAccuracy (validateInputTiming input (Some ev)) = penalty
      <-> isValid (validateInputTiming input (Some ev)) = false)
  /\ 0 <= reactionTime (validateInputTiming input (Some ev)).
Proof.
  unfold validateInputTiming, isInputWithinWindow.
  set (r := timestamp input - activatedAt ev).
  destruct (Qltb r 0) eqn:E0; cbn [isValid reactionTime timingAccuracy].
  - apply Qltb_lt in E0.
    assert (H : Qle_bool 0 r = false) by (apply Qle_bool_false; exact E0).
    rewrite H. cbn [andb].
    split; [reflexivity|]. split; [tauto|]. apply Qabs_nonneg.
  - apply Qltb_ge in E0. pose proof E0 as E0'.
    apply Qle_bool_iff in E0'. rewrite E0'. cbn [andb].
    destruct (Qltb (duration ev) r) eqn:Ed;
      cbn [isValid reactionTime timingAccuracy].
    + apply Qltb_lt in Ed.
      assert (H : Qle_bool r (duration ev) = false)
        by (apply Qle_bool_false; exact Ed).
      rewrite H. split; [reflexivity|]. split; [tauto | exact E0].
    + apply Qltb_ge in Ed. apply Qle_bool_iff in Ed. rewrite Ed.
      split; [reflexivity|]. split; [|exact E0].
      destruct (Qle_bool r 100); [split; discriminate|].
      destruct (Qle_bool r 300); split; discriminate.
Qed.

Lemma validateInputTiming_valid_iff_witness :
  timingAccuracy
    (validateInputTiming
       {| inputType := brake; timestamp := 5000; inputMethod := keyboard |}
       (Some {| ctype := brake_point; cdistance := 200; activatedAt := 2000;
                duration := 2000 |})) = penalty.
Proof.
  apply (validateInputTiming_valid_iff
           {| inputType := brake; timestamp := 5000; inputMethod := keyboard |}
           {| ctype := brake_point; cdistance := 200; activatedAt := 2000;
              duration := 2000 |}).
  reflexivity.
Defined.

(** X17: the two helpers composed: an accepted input earns an increase
    that lasts the remaining duration, and of two accepted inputs the
    earlier never earns less (base increase not negative); a rejected input
    earns the configured decrease for 1000 ms whatever the remaining
    duration. *)
Theorem earlier_input_earns_no_less
    (i1 i2 : PlayerInput) (ev : CheckpointEvent) (baseInc baseDec rem : Q) :
  0 <= baseInc ->
  timestamp i1 <= timestamp i2 ->
  let grade i := timingAccuracy (validateInputTiming i (Some ev)) in
  let modification i :=
    calculateSpeedModification baseInc baseDec (grade i) rem in
  (isValid (validateInputTiming i1 (Some ev)) = true ->
   isValid (validateInputTiming i2 (Some ev)) = true ->
   smType (modification i1) = increase
   /\ smDuration (modification i1) = rem
   /\ smAmount (modification i2) <= smAmount (modification i1))
  /\ (isValid (validateInputTiming i1 (Some ev)) = false ->
      modification i1
      = {| smType := decrease; smAmount := baseDec; smDuration := 1000 |}).
Proof.
  intros Hb Hle. cbv zeta. unfold validateInputTiming.
  set (r1 := timestamp i1 - activatedAt ev).
  set (r2 := timestamp i2 - activatedAt ev).
  assert (Hr : r1 <= r2) by (unfold r1, r2; lra).
  split.
  - destruct (Qltb r1 0); [discriminate|].
    destruct (Qltb (duration ev) r1); [discriminate|].
    destruct (Qltb r2 0); [discriminate|].
    destruct (Qltb (duration ev) r2); [discriminate|].
    cbn [isValid timingAccuracy]. intros _ _.
    destruct (Qle_bool r1 100) eqn:A1; destruct (Qle_bool r1 300) eqn:A3;
      destruct (Qle_bool r2 100) eqn:B1; destruct (Qle_bool r2 300) eqn:B3;
      try apply Qle_bool_iff in A1; try apply Qle_bool_iff in A3;
      try apply Qle_bool_iff in B1; try apply Qle_bool_iff in B3;
      try apply Qle_bool_false in A1; try apply Qle_bool_false in A3;
      try apply Qle_bool_false in B1; try apply Qle_bool_false in B3;
      cbn [calculateSpeedModification smType smDuration smAmount];
      (split; [reflexivity|]); (split; [reflexivity|]); lra.
  - destruct (Qltb r1 0); [reflexivity|].
    destruct (Qltb (duration ev) r1); [reflexivity|]. discriminate.
Qed.

Lemma earlier_input_earns_no_less_witness :
  smAmount
    (calculateSpeedModification 15 10
       (timingAccuracy
          (validateInputTiming
             {| inputType := acceleration; timestamp := 2400;
                inputMethod := touch |}
             (Some {| ctype := straight_point; cdistance := 100;
                      activatedAt := 2000; duration := 2000 |}))) 1600)
  <= smAmount
       (calculateSpeedModification 15 10
          (timingAccuracy
             (validateInputTiming
                {| inputType := acceleration; timestamp := 2050;
                   inputMethod := keyboard |}
                (Some {| ctype := straight_point; cdistance := 100;
                         activatedAt := 2000; duration := 2000 |}))) 1600).
Proof.
  refine (proj2 (proj2 (proj1
    (earlier_input_earns_no_less
       {| inputType := acceleration; timestamp := 2050;
          inputMethod := keyboard |}
       {| inputType := acceleration; timestamp := 2400;
          inputMethod := touch |}
       {| ctype := straight_point; cdistance := 100;
          activatedAt := 2000; duration := 2000 |}
       15 10 1600 _ _) _ _))).
  - vm_compute. discriminate.
  - vm_compute. discriminate.
  - reflexivity.
  - reflexivity.
Defined.

Lemma fold_closer_min (rest : list PriorityPoint) :
  forall first,
    In (fold_left closer rest first) (first :: rest)
    /\ forall p, In p (first :: rest) ->
                 priority (fold_left closer rest first) <= priority p.
Proof.
  induction rest as [|x rest IH]; intro first; simpl.
  - split; [left; reflexivity|]. intros p [<-|[]]. lra.
  - destruct (IH (closer first x)) as [Hin Hmin]. split.
    + destruct Hin as [Hin|Hin]; [|right; right; exact Hin].
      rewrite <- Hin. unfold closer. destruct (Qltb _ _); auto.
    + intros p Hp.
      assert (Hc : priority (closer first x) <= priority first
                   /\ priority (closer first x) <= priority x).
      { unfold closer. destruct (Qltb (priority x) (priority first)) eqn:E.
        - apply Qltb_lt in E. split; lra.
        - apply Qltb_ge in E. split; lra. }
      pose proof (Hmin (closer first x) (or_introl eq_refl)) as H0.
      destruct Hp as [<-|[<-|Hp]]; [lra | lra |].
      apply Hmin. right. exact Hp.
Qed.

(** X18: [getCheckpointPriority] answers null exactly when no point of
    either array is within 5 m of the car; otherwise it answers a point of
    the arrays that [shouldActivateCheckpoint] accepts at tolerance 5, with
    its distance to the car as priority, and no point of either array is
    nearer to the car. *)
Theorem getCheckpointPriority_closest (carDistance : Q)
    (brakePoints straightPoints : list Q) :
  match getCheckpointPriority carDistance brakePoints straightPoints with
  | None =>
      forall p, In p (candidates carDistance brakePoints straightPoints) ->
                shouldActivateCheckpoint carDistance (ppDistance p) 5 = false
  | Some best =>
      In best (candidates carDistance brakePoints straightPoints)
      /\ shouldActivateCheckpoint carDistance (ppDistance best) 5 = true
      /\ forall p, In p (candidates carDistance brakePoints straightPoints) ->
                   priority best <= priority p
  end.
Proof.
  assert (Hprio : forall p,
            In p (candidates carDistance brakePoints straightPoints) ->
            priority p = Qabs (carDistance - ppDistance p)).
  { intros p Hp. unfold candidates in Hp. apply in_app_or in Hp.
    destruct Hp as [Hp|Hp]; apply in_map_iff in Hp;
      destruct Hp as (d & <- & _); reflexivity. }
  assert (Hall : nearby brake_point carDistance brakePoints
                 ++ nearby straight_point carDistance straightPoints
                 = filter (fun point => Qle_bool (priority point) 5)
                     (candidates carDistance brakePoints straightPoints)).
  { unfold nearby, candidates. rewrite filter_app. reflexivity. }
  unfold getCheckpointPriority. rewrite Hall.
  destruct (filter _ (candidates carDistance brakePoints straightPoints))
    as [|first rest] eqn:E.
  - intros p Hp. unfold shouldActivateCheckpoint. rewrite <- (Hprio p Hp).
    destruct (Qle_bool (priority p) 5) eqn:Ep; [|reflexivity].
    assert (Hin : In p (filter (fun point => Qle_bool (priority point) 5)
                          (candidates carDistance brakePoints straightPoints)))
      by (apply filter_In; split; assumption).
    rewrite E in Hin. destruct Hin.
  - destruct (fold_closer_min rest first) as [Hin Hmin].
    rewrite <- E in Hin. apply filter_In in Hin. destruct Hin as [Hin Hnear].
    split; [exact Hin|]. split.
    + unfold shouldActivateCheckpoint. rewrite <- (Hprio _ Hin). exact Hnear.
    + intros p Hp. destruct (Qle_bool (priority p) 5) eqn:Ep.
      * apply Hmin. rewrite <- E. apply filter_In. split; assumption.
      * apply Qle_bool_false in Ep. apply Qle_bool_iff in Hnear. lra.
Qed.

Lemma getCheckpointPriority_closest_witness :
  shouldActivateCheckpoint 198 200 5 = true.
Proof.
  exact (proj1 (proj2
    (getCheckpointPriority_closest 198 [200; 400] [100; 195]))).
Defined.

Lemma fold_setState_cases (k : ControlType) (now : Q)
    (m : list (TrackManager.Key * CheckpointEvent)) :
  forall st,
    TrackManager.stateOfControl k (fold_left (TrackManager.setState now) m st)
    = TrackManager.stateOfControl k st
    \/ exists kv, In kv m
         /\ TrackManager.stateOfControl k
              (fold_left (TrackManager.setState now) m st)
            = UseGameState.stateOf (snd kv).
Proof.
  induction m as [|x m IH]; intro st; simpl; [left; reflexivity|].
  destruct (IH (TrackManager.setState now st x)) as [H|(kv & Hin & H)].
  - rewrite H. unfold TrackManager.setState.
    destruct (Qltb _ _); [|left; reflexivity].
    destruct k, (ctype (snd x)); simpl; auto;
      right; exists x; split; auto.
  - right. exists kv. split; [right; exact Hin | exact H].
Qed.

(** X19: when every active checkpoint has a positive activation time and a
    positive duration, both control states that [getControlStates] returns
    pass [validateControlState]. *)
Theorem getControlStates_validates
    (now : Q) (tm : TrackManager.t) (k : ControlType) :
  Forall (fun kv => 0 < activatedAt (snd kv) /\ 0 < duration (snd kv))
    (TrackManager.activeCheckpoints tm) ->
  validateControlState
    (TrackManager.stateOfControl k (fst (TrackManager.getControlStates now tm)))
  = Returns.
Proof.
  intro Hpos. rewrite getControlStates_states.
  destruct (fold_setState_cases k now
              (TrackManager.activeCheckpoints
                 (snd (TrackManager.getControlStates now tm)))
              (TrackManager.inactiveState, TrackManager.inactiveState))
    as [H|(kv & Hin & H)]; rewrite H.
  - destruct k; reflexivity.
  - apply getControlStates_subset in Hin.
    rewrite Forall_forall in Hpos. destruct (Hpos kv Hin) as [Ha Hd].
    unfold validateControlState, UseGameState.stateOf.
    cbn [isActive csActivatedAt csDuration].
    assert (E1 : Qltb (activatedAt (snd kv)) 0 = false)
      by (apply Qltb_ge; lra).
    assert (E2 : Qltb (duration (snd kv)) 0 = false)
      by (apply Qltb_ge; lra).
    assert (E3 : Qeq_bool (activatedAt (snd kv)) 0 = false).
    { destruct (Qeq_bool (activatedAt (snd kv)) 0) eqn:E; [|reflexivity].
      apply Qeq_bool_iff in E. lra. }
    assert (E4 : Qeq_bool (duration (snd kv)) 0 = false).
    { destruct (Qeq_bool (duration (snd kv)) 0) eqn:E; [|reflexivity].
      apply Qeq_bool_iff in E. lra. }
    rewrite E1, E2, E3, E4. reflexivity.
Qed.

Lemma getControlStates_validates_witness :
  validateControlState
    (TrackManager.stateOfControl acceleration
       (fst (TrackManager.getControlStates 2050
               (UseGameState.trackManager UseGameState.atFirstStraight))))
  = Returns.
Proof.
  apply (getControlStates_validates 2050
           (UseGameState.trackManager UseGameState.atFirstStraight)
           acceleration).
  repeat constructor.
Defined.

(** X20: on a track that [validateTrack] accepts, every event a check
    method returns at a time that is not negative passes
    [validateCheckpointEvent]. *)
Theorem fired_event_validates
    (ty : CheckpointType) (d now : Q) (tm : TrackManager.t)
    (e : CheckpointEvent) :
  Validation.validateTrack (TrackManager.track tm) = Validation.Returns ->
  0 <= now ->
  fst (TrackManager.check ty d now tm) = Some e ->
  validateCheckpointEvent e = Returns.
Proof.
  intros Hv Hnow He.
  apply throwsb_false in Hv. apply validateTrack_iff in Hv.
  destruct Hv as (Hpos & Hb & Hs & _).
  assert (Hc : TrackManager.check ty d now tm
               = TrackManager.checkLoop ty
                   (TrackManager.pointsOf ty (TrackManager.track tm)) d now tm)
    by (destruct ty; reflexivity).
  rewrite Hc in He.
  pose proof (checkLoop_spec ty
                (TrackManager.pointsOf ty (TrackManager.track tm)) d now tm) as S.
  rewrite He in S. destruct S as (before & after & Hp & _ & _ & Hev & _).
  assert (Hin : In (cdistance e)
                  (TrackManager.pointsOf ty (TrackManager.track tm))).
  { rewrite Hp. apply in_or_app. right. left. reflexivity. }
  assert (H0 : 0 <= cdistance e).
  { assert (Hw : Validation.withinBounds
                   (TrackManager.pointsOf ty (TrackManager.track tm))
                   (distance (TrackManager.track tm)) = true)
      by (destruct ty; assumption).
    unfold Validation.withinBounds in Hw. rewrite forallb_forall in Hw.
    specialize (Hw _ Hin). apply andb_true_iff in Hw.
    destruct Hw as [Hw _]. apply Qle_bool_iff, Hw. }
  assert (Hdur : 0 < pointDuration (TrackManager.track tm)).
  { unfold Validation.positiveScalars in Hpos.
    apply andb_true_iff in Hpos. destruct Hpos as [_ Hpos].
    apply Qltb_lt, Hpos. }
  rewrite Hev. unfold validateCheckpointEvent.
  cbn [cdistance activatedAt duration].
  assert (E1 : Qltb (cdistance e) 0 = false) by (apply Qltb_ge; exact H0).
  assert (E2 : Qltb now 0 = false) by (apply Qltb_ge; exact Hnow).
  assert (E3 : Qle_bool (pointDuration (TrackManager.track tm)) 0 = false)
    by (apply Qle_bool_false; exact Hdur).
  rewrite E1, E2, E3. reflexivity.
Qed.

Lemma fired_event_validates_witness :
  validateCheckpointEvent
    {| ctype := brake_point; cdistance := 200; activatedAt := 4000;
       duration := 2000 |} = Returns.
Proof.
  apply (fired_event_validates brake_point 250 4000
           (TrackManager.create Validation.defaultTrack)).
  - reflexivity.
  - vm_compute. discriminate.
  - reflexivity.
Defined.

End CheckpointValidationFacts.

(** ** The hook: invariants of a race *)

Section HookMore.
Import UseGameState.

Lemma notRunning_dispatch (h : t) (e : Event) :
  isRunning (gameState h) = false ->
  gameState (dispatch h e) = gameState h
  /\ carManager (dispatch h e) = carManager h
  /\ trackManager (dispatch h e) = trackManager h
  /\ inputCooldown (dispatch h e) = inputCooldown h.
Proof.
  intro Hnot. destruct e as [k now t1 t2 t3|dt tp tr tm tc|now]; simpl.
  - unfold handleControlInput. destruct (Qltb _ 100); [repeat split|].
    rewrite Hnot. repeat split.
  - unfold updateCarPosition. rewrite Hnot. simpl.
    unfold updateSpeedModifiers. rewrite Hnot. simpl.
    unfold updateControlStates. rewrite Hnot. repeat split.
  - repeat split.
Qed.

(** X21: outside a running race nothing moves: while the status is idle or
    finished, presses, frames and timeouts leave the game state, the car,
    the checkpoints and the cooldowns exactly as they are. *)
Theorem not_running_is_frozen (h : t) (es : list Event) :
  isRunning (gameState h) = false ->
  gameState (run es h) = gameState h
  /\ carManager (run es h) = carManager h
  /\ trackManager (run es h) = trackManager h
  /\ inputCooldown (run es h) = inputCooldown h.
Proof.
  revert h. induction es as [|e es IH]; intros h Hnot; [repeat split|].
  simpl. destruct (notRunning_dispatch h e Hnot) as (Hg & Hc & Ht & Hi).
  assert (Hnot' : isRunning (gameState (dispatch h e)) = false)
    by (rewrite Hg; exact Hnot).
  destruct (IH _ Hnot') as (Hg' & Hc' & Ht' & Hi').
  repeat split; congruence.
Qed.

Lemma not_running_is_frozen_witness :
  carManager
    (run [Press brake 500 500 500 500; Frame 16 516 516 516 516]
       (mount Validation.defaultTrack))
  = carManager (mount Validation.defaultTrack).
Proof.
  apply (not_running_is_frozen (mount Validation.defaultTrack)
           [Press brake 500 500 500 500; Frame 16 516 516 516 516]).
  reflexivity.
Defined.

(** X22: [updateCarPosition] ends the race exactly when the advance
    reaches the track distance: the status becomes finished, the race time
    is the timer reading, and the car stands at the track distance;
    otherwise the race goes on and the race time is untouched. *)
Theorem updateCarPosition_finishes
    (deltaTime tUpdate timerReading : Q) (h : t) :
  isRunning (gameState h) = true ->
  let D := distance (gsTrack (gameState h)) in
  let reach :=
    distanceCovered (carManager h)
    + currentSpeed (carManager h) * (deltaTime / 1000) in
  let h' := updateCarPosition deltaTime tUpdate timerReading h in
  (D <= reach ->
     gameStatus (gameState h') = finished
     /\ raceTime (gsTrack (gameState h')) = Some timerReading
     /\ distanceCovered (gsCar (gameState h')) == D)
  /\ (reach < D ->
     gameStatus (gameState h') = running
     /\ raceTime (gsTrack (gameState h')) = raceTime (gsTrack (gameState h))
     /\ distanceCovered (gsCar (gameState h')) == reach).
Proof.
  intro Hrun. cbv zeta. unfold updateCarPosition. rewrite Hrun. simpl negb.
  cbv iota. unfold CarManager.isRaceComplete.
  cbn [CarManager.updateCurrentSpeed CarManager.updatePosition distanceCovered
       speedModifiers baseSpeed currentSpeed].
  set (D := distance (gsTrack (gameState h))).
  set (reach := distanceCovered (carManager h)
                + currentSpeed (carManager h) * (deltaTime / 1000)).
  assert (Hstat : gameStatus (gameState h) = running).
  { unfold isRunning in Hrun. destruct (gameStatus (gameState h));
      [discriminate | reflexivity | discriminate]. }
  split; intro Hcmp.
  - assert (E : Qle_bool D (Math_min reach D) = true).
    { apply Qle_bool_iff. case_min reach D; lra. }
    rewrite E. cbn [gameState gameStatus gsTrack gsCar raceTime].
    split; [reflexivity|]. split; [reflexivity|].
    change (distanceCovered
              (CarManager.updateCurrentSpeed tUpdate
                 (CarManager.updatePosition deltaTime D (carManager h))))
      with (Math_min reach D).
    case_min reach D; lra.
  - assert (E : Qle_bool D (Math_min reach D) = false).
    { apply Qle_bool_false. case_min reach D; lra. }
    rewrite E. cbn [gameState gameStatus gsTrack gsCar raceTime].
    split; [exact Hstat|]. split; [reflexivity|].
    change (distanceCovered
              (CarManager.updateCurrentSpeed tUpdate
                 (CarManager.updatePosition deltaTime D (carManager h))))
      with (Math_min reach D).
    case_min reach D; lra.
Qed.

Lemma updateCarPosition_finishes_witness :
  gameStatus
    (gameState
       (updateCarPosition 20000 20000 20000
          (startRace 0 (mount Validation.defaultTrack)))) = finished.
Proof.
  apply (updateCarPosition_finishes 20000 20000 20000
           (startRace 0 (mount Validation.defaultTrack))).
  - reflexivity.
  - vm_compute. discriminate.
Defined.

Lemma isRunning_status (g : GameState) :
  isRunning g = true <-> gameStatus g = running.
Proof.
  unfold isRunning. destruct (gameStatus g); split; congruence.
Qed.

(** What each updater of a frame does to the fields a race depends on. *)
Lemma updateCarPosition_shape (dt tp tr : Q) (h : t) :
  isRunning (gameState h) = true ->
  let cm := CarManager.updateCurrentSpeed tp
              (CarManager.updatePosition dt (distance (gsTrack (gameState h)))
                 (carManager h)) in
  let h' := updateCarPosition dt tp tr h in
  carManager h' = cm
  /\ gsCar (gameState h') = cm
  /\ gameStatus (gameState h')
     = (if CarManager.isRaceComplete (distance (gsTrack (gameState h))) cm
        then finished else running)
  /\ distance (gsTrack (gameState h')) = distance (gsTrack (gameState h))
  /\ averageSpeed (gsTrack (gameState h'))
     = averageSpeed (gsTrack (gameState h))
  /\ Validation.validateTrack (gsTrack (gameState h'))
     = Validation.validateTrack (gsTrack (gameState h))
  /\ raceStartTime (gameState h') = raceStartTime (gameState h).
Proof.
  intro Hrun. cbv zeta. unfold updateCarPosition. rewrite Hrun. simpl negb.
  cbv iota. apply isRunning_status in Hrun.
  destruct (CarManager.isRaceComplete _ _); simpl; rewrite ?Hrun;
    repeat split.
Qed.

Lemma updateSpeedModifiers_shape (tm : Q) (h : t) :
  isRunning (gameState h) = true ->
  let h' := updateSpeedModifiers tm h in
  carManager h' = CarManager.updateCurrentSpeed tm (carManager h)
  /\ gsCar (gameState h') = carManager h'
  /\ gameStatus (gameState h') = gameStatus (gameState h)
  /\ gsTrack (gameState h') = gsTrack (gameState h)
  /\ raceStartTime (gameState h') = raceStartTime (gameState h).
Proof.
  intro Hrun. cbv zeta. unfold updateSpeedModifiers. rewrite Hrun.
  repeat split.
Qed.

Lemma updateControlStates_shape (tc : Q) (h : t) :
  let h' := updateControlStates tc h in
  carManager h' = carManager h
  /\ gsCar (gameState h') = gsCar (gameState h)
  /\ gameStatus (gameState h') = gameStatus (gameState h)
  /\ gsTrack (gameState h') = gsTrack (gameState h)
  /\ raceStartTime (gameState h') = raceStartTime (gameState h).
Proof.
  cbv zeta. unfold updateControlStates.
  destruct (negb (isRunning (gameState h))); [repeat split|].
  destruct (TrackManager.checkBrakePoints _ _ _) as [e1 tm1].
  destruct (TrackManager.checkStraightPoints _ _ _) as [e2 tm2].
  destruct (TrackManager.getControlStates _ _) as [st tm3].
  destruct (_ || _ || _ || _); repeat split.
Qed.

Lemma speedBonusFor_positive (si r : Q) : 0 < si -> 0 < speedBonusFor si r.
Proof.
  intro H. unfold speedBonusFor.
  destruct (Qle_bool r 200); [lra|]. destruct (Qle_bool r 500); lra.
Qed.

(** A press leaves the car alone or adds one modifier with a positive
    magnitude and duration; it never touches track, status or start time. *)
Lemma handleControlInput_shape (k : ControlType) (now t1 t2 t3 : Q) (h : t) :
  0 < speedIncrease (gsTrack (gameState h)) ->
  0 < speedDecrease (gsTrack (gameState h)) ->
  let h' := handleControlInput k now t1 t2 t3 h in
  (h' = h
   \/ exists ty amt dur,
        0 < amt /\ 0 < dur
        /\ carManager h'
           = CarManager.addSpeedModifier ty amt dur t1 t2 (carManager h)
        /\ gsCar (gameState h') = carManager h')
  /\ gameStatus (gameState h') = gameStatus (gameState h)
  /\ gsTrack (gameState h') = gsTrack (gameState h)
  /\ raceStartTime (gameState h') = raceStartTime (gameState h).
Proof.
  intros Hsi Hsd. cbv zeta. unfold handleControlInput.
  destruct (Qltb _ 100); [split; [left; reflexivity | repeat split]|].
  destruct (negb (isRunning (gameState h)));
    [split; [left; reflexivity | repeat split]|].
  destruct (TrackManager.isControlActive k now (trackManager h)) eqn:Ea.
  - destruct (remaining_when_active k now (trackManager h) Ea)
      as (c & _ & _ & Hmax & Hpos).
    destruct (TrackManager.getControlStates now _) as [st tm'].
    split; [|repeat split]. right.
    exists increase,
      (speedBonusFor (speedIncrease (gsTrack (gameState h)))
         (now - csActivatedAt (ofControl k (activeControls (gameState h))))),
      (Math_max 0 (TrackManager.getRemainingDuration k now (trackManager h))).
    split; [apply speedBonusFor_positive, Hsi|].
    split; [rewrite Hmax; exact Hpos|]. split; reflexivity.
  - destruct (Set_has k (activePenalties h)); simpl;
      [split; [left; reflexivity | repeat split]|].
    split; [|repeat split]. right.
    exists decrease, (speedDecrease (gsTrack (gameState h))), 1000.
    split; [exact Hsd|]. split; [lra|]. split; reflexivity.
Qed.

Lemma validateTrack_scalars (tr : Track) :
  Validation.validateTrack tr = Validation.Returns ->
  0 < distance tr /\ 0 < averageSpeed tr /\ 0 < speedIncrease tr
  /\ 0 < speedDecrease tr /\ 0 < pointDuration tr.
Proof.
  intro Hv. apply throwsb_false, validateTrack_iff in Hv.
  destruct Hv as (Hpos & _). unfold Validation.positiveScalars in Hpos.
  repeat (apply andb_true_iff in Hpos; destruct Hpos as [Hpos ?]).
  repeat split; apply Qltb_lt; assumption.
Qed.

Lemma raceInvariant_dispatch (h : t) (e : Event) :
  raceInvariant h -> saneEvent e -> raceInvariant (dispatch h e).
Proof.
  intros (Hv & Hsync & Hcar & Hd & Hst) Hsane.
  destruct (validateTrack_scalars _ Hv) as (HD & _ & Hsi & Hsd & _).
  destruct e as [k now t1 t2 t3|dt tp tr tm tc|now].
  - simpl in *.
    destruct (handleControlInput_shape k now t1 t2 t3 h Hsi Hsd)
      as (Hcm & Hg & Ht & Hs).
    unfold raceInvariant. rewrite Hg, Ht, Hs.
    destruct Hcm as [->|(ty & amt & dur & Ha & Hdur & Hcm & Hsync')].
    + repeat split; try assumption; apply Hst.
    + split; [exact Hv|]. split; [exact Hsync'|]. rewrite Hcm.
      split; [|split; [exact Hd | exact Hst]].
      apply (validateCar_step (carManager h)
               (CarManager.OpAddSpeedModifier ty amt dur t1 t2) Hcar).
      simpl. repeat split; assumption.
  - simpl in Hsane. simpl dispatch.
    assert (Hpos : raceInvariant (updateCarPosition dt tp tr h)).
    { destruct (isRunning (gameState h)) eqn:Hrun.
      - destruct (updateCarPosition_shape dt tp tr h Hrun)
          as (Hc & Hg & Hs & Hdist & _ & Hvt & Hstart).
        unfold raceInvariant. rewrite Hc, Hg, Hvt, Hdist, Hstart.
        split; [exact Hv|]. split; [reflexivity|]. split; [|split].
        + apply (validateCar_step _ (CarManager.OpUpdateCurrentSpeed tp));
            [|exact I].
          apply (validateCar_step (carManager h)
                   (CarManager.OpUpdatePosition dt
                      (distance (gsTrack (gameState h)))) Hcar).
          simpl. split; lra.
        + apply Math_min_upper.
        + rewrite Hs. apply isRunning_status in Hrun.
          destruct (CarManager.isRaceComplete _ _); split; intro H;
            try discriminate; apply Hst in H; congruence.
      - unfold updateCarPosition. rewrite Hrun.
        repeat split; try assumption; apply Hst. }
    set (h1 := updateCarPosition dt tp tr h) in *.
    assert (Hmod : raceInvariant (updateSpeedModifiers tm h1)).
    { destruct Hpos as (Hv1 & Hsync1 & Hcar1 & Hd1 & Hst1).
      destruct (isRunning (gameState h1)) eqn:Hrun.
      - destruct (updateSpeedModifiers_shape tm h1 Hrun)
          as (Hc & Hg & Hs & Ht & Hstart).
        unfold raceInvariant. rewrite Hg, Hc, Hs, Ht, Hstart.
        split; [exact Hv1|]. split; [reflexivity|].
        split; [|split; [exact Hd1 | exact Hst1]].
        apply (validateCar_step (carManager h1)
                 (CarManager.OpUpdateCurrentSpeed tm) Hcar1). exact I.
      - unfold updateSpeedModifiers. rewrite Hrun.
        repeat split; try assumption; apply Hst1. }
    set (h2 := updateSpeedModifiers tm h1) in *.
    destruct Hmod as (Hv2 & Hsync2 & Hcar2 & Hd2 & Hst2).
    destruct (updateControlStates_shape tc h2) as (Hc & Hg & Hs & Ht & Hstart).
    unfold raceInvariant. rewrite Hc, Hg, Hs, Ht, Hstart.
    repeat split; try assumption; apply Hst2.
  - simpl. repeat split; try assumption; apply Hst.
Qed.

Lemma raceInvariant_validates (h : t) :
  raceInvariant h ->
  GameStateValidation.validateGameState (gameState h)
  = GameStateValidation.Returns.
Proof.
  intros (Hv & Hsync & Hcar & Hd & Hst).
  unfold GameStateValidation.validateGameState.
  rewrite Hv, Hsync, Hcar.
  cbn [GameStateValidation.lift GameStateValidation.andThen].
  assert (E : Qltb (distance (gsTrack (gameState h)))
                (distanceCovered (carManager h)) = false)
    by (apply Qltb_ge; exact Hd).
  rewrite E. cbn [GameStateValidation.throwIf GameStateValidation.andThen].
  destruct (gameStatus (gameState h)) eqn:Es.
  - rewrite (proj1 Hst eq_refl). reflexivity.
  - destruct (raceStartTime (gameState h)) eqn:Er; [reflexivity|].
    destruct Hst as [_ Hst]. specialize (Hst eq_refl). discriminate.
  - reflexivity.
Qed.

Lemma raceInvariant_initial (cfg : Track) :
  Validation.validateTrack cfg = Validation.Returns ->
  raceInvariant (mount cfg)
  /\ (forall h, config h = cfg -> raceInvariant (resetGame h))
  /\ (forall now h, config h = cfg -> raceInvariant (startRace now h)).
Proof.
  intro Hv. destruct (validateTrack_scalars cfg Hv) as (HD & Ha & _).
  assert (Hcar : Validation.validateCar
                   (CarManager.reset (averageSpeed cfg)) = Validation.Returns).
  { apply validateCar_iff. simpl. repeat split; try lra. constructor. }
  split; [|split].
  - unfold raceInvariant. simpl. split; [exact Hv|]. split; [reflexivity|].
    split; [exact Hcar|]. split; [lra|]. split; reflexivity.
  - intros h <-. unfold raceInvariant. simpl.
    split; [exact Hv|]. split; [reflexivity|].
    split; [exact Hcar|]. split; [lra|]. split; reflexivity.
  - intros now h <-. unfold raceInvariant. simpl.
    split; [exact Hv|]. split; [reflexivity|].
    split; [exact Hcar|]. split; [lra|]. split; discriminate.
Qed.

Lemma config_run (es : list Event) :
  forall h, config (run es h) = config h.
Proof.
  induction es as [|e es IH]; intro h; [reflexivity|].
  simpl. rewrite IH. destruct e as [k now t1 t2 t3|dt tp tr tm tc|now]; simpl.
  - unfold handleControlInput.
    destruct (Qltb _ 100); [reflexivity|].
    destruct (negb _); [reflexivity|].
    destruct (TrackManager.isControlActive _ _ _).
    + destruct (TrackManager.getControlStates _ _); reflexivity.
    + destruct (negb _); reflexivity.
  - unfold updateControlStates.
    assert (H1 : forall x, config (updateSpeedModifiers tm x) = config x).
    { intro x. unfold updateSpeedModifiers. destruct (negb _); reflexivity. }
    assert (H2 : forall x, config (updateCarPosition dt tp tr x) = config x).
    { intro x. unfold updateCarPosition. destruct (negb _); reflexivity. }
    destruct (negb _); [rewrite H1, H2; reflexivity|].
    destruct (TrackManager.checkBrakePoints _ _ _).
    destruct (TrackManager.checkStraightPoints _ _ _).
    destruct (TrackManager.getControlStates _ _).
    simpl. rewrite H1, H2. reflexivity.
  - reflexivity.
Qed.

(** X23: with a configuration that [validateTrack] accepts, the game state
    passes [validateGameState] when the hook is mounted, and after a start
    followed by any presses, frames and timeouts whose modifier start times
    and frame deltas are not negative; it still does after a reset from
    there.  Throughout, the car of the game state is the car of the
    manager. *)
Theorem reachable_state_validates (cfg : Track) (start : Q) (es : list Event) :
  Validation.validateTrack cfg = Validation.Returns ->
  Forall saneEvent es ->
  let h := run es (startRace start (mount cfg)) in
  GameStateValidation.validateGameState (gameState (mount cfg))
  = GameStateValidation.Returns
  /\ GameStateValidation.validateGameState (gameState h)
     = GameStateValidation.Returns
  /\ gsCar (gameState h) = carManager h
  /\ GameStateValidation.validateGameState (gameState (resetGame h))
     = GameStateValidation.Returns.
Proof.
  intros Hv Hes. cbv zeta.
  destruct (raceInvariant_initial cfg Hv) as (Hm & Hr & Hs).
  assert (Hinv : raceInvariant (run es (startRace start (mount cfg)))).
  { specialize (Hs start (mount cfg) eq_refl). revert Hs.
    generalize (startRace start (mount cfg)).
    induction Hes as [|e es He Hes IH]; intros h Hh; [exact Hh|].
    simpl. apply IH, raceInvariant_dispatch; assumption. }
  split; [apply raceInvariant_validates, Hm|].
  split; [apply raceInvariant_validates, Hinv|].
  split; [apply Hinv|].
  apply raceInvariant_validates, Hr. rewrite config_run. reflexivity.
Qed.

Lemma reachable_state_validates_witness :
  GameStateValidation.validateGameState
    (gameState
       (run [Frame 2000 2000 2000 2000 2000;
             Press acceleration 2050 2050 2050 2050;
             Press brake 2300 2300 2300 2300; Timeouts 3300]
            (startRace 0 (mount Validation.defaultTrack))))
  = GameStateValidation.Returns.
Proof.
  apply (reachable_state_validates Validation.defaultTrack 0
           [Frame 2000 2000 2000 2000 2000;
            Press acceleration 2050 2050 2050 2050;
            Press brake 2300 2300 2300 2300; Timeouts 3300]).
  - reflexivity.
  - repeat constructor; simpl; (vm_compute; discriminate).
Defined.

Lemma ofControl_setControl {A} (k : ControlType) (v : A) (p : A * A) :
  ofControl k (setControl k v p) = v
  /\ ofControl (TrackManager.otherControl k) (setControl k v p)
     = ofControl (TrackManager.otherControl k) p.
Proof. destruct k; split; reflexivity. Qed.

(** X24: a press that earns a boost or a penalty starts the cooldown of its
    control: every press of that control less than 100 ms later is ignored
    and leaves the whole state as it is, while the cooldown of the other
    control is not touched. *)
Theorem accepted_press_starts_cooldown
    (h : t) (k : ControlType) (now tStart tUpdate tTimer : Q) :
  isRunning (gameState h) = true ->
  100 <= now - ofControl k (inputCooldown h) ->
  TrackManager.isControlActive k now (trackManager h) = true
  \/ Set_has k (activePenalties h) = false ->
  let h' := handleControlInput k now tStart tUpdate tTimer h in
  ofControl k (inputCooldown h') = now
  /\ ofControl (TrackManager.otherControl k) (inputCooldown h')
     = ofControl (TrackManager.otherControl k) (inputCooldown h)
  /\ (forall t' t1 t2 t3,
        t' - now < 100 -> handleControlInput k t' t1 t2 t3 h' = h').
Proof.
  intros Hrun Hcd Hacc. cbv zeta.
  assert (Hcool : inputCooldown (handleControlInput k now tStart tUpdate tTimer h)
                  = setControl k now (inputCooldown h)).
  { unfold handleControlInput. apply Qltb_ge in Hcd. rewrite Hcd, Hrun.
    simpl negb. cbv iota.
    destruct (TrackManager.isControlActive k now (trackManager h)) eqn:Ea.
    - destruct (TrackManager.getControlStates now _) as [st tm']. reflexivity.
    - destruct Hacc as [Hacc|Hacc]; [discriminate|]. rewrite Hacc. reflexivity. }
  destruct (ofControl_setControl k now (inputCooldown h)) as [H1 H2].
  rewrite Hcool. split; [exact H1|]. split; [exact H2|].
  intros t' t1 t2 t3 Hsoon.
  unfold handleControlInput at 1. rewrite Hcool, H1.
  apply Qltb_lt in Hsoon. rewrite Hsoon. reflexivity.
Qed.

Lemma accepted_press_starts_cooldown_witness :
  handleControlInput brake 240 240 240 240
    (handleControlInput brake 150 150 150 150
       (startRace 0 (mount Validation.defaultTrack)))
  = handleControlInput brake 150 150 150 150
      (startRace 0 (mount Validation.defaultTrack)).
Proof.
  apply (accepted_press_starts_cooldown
           (startRace 0 (mount Validation.defaultTrack)) brake 150 150 150 150).
  - reflexivity.
  - vm_compute. discriminate.
  - right. reflexivity.
  - vm_compute. reflexivity.
Defined.






End HookMore.

(** ** Resets, expiry and the relation between the helpers *)

Section Further.

Lemma checkLoop_fresh (ty : CheckpointType) (points : list Q) (d now : Q)
    (tr : Track) :
  fst (TrackManager.checkLoop ty points d now (TrackManager.create tr))
  = option_map
      (fun p => {| ctype := ty; cdistance := p; activatedAt := now;
                   duration := pointDuration tr |})
      (find (fun p => Qle_bool p d) points).
Proof.
  induction points as [|p rest IH]; simpl; [reflexivity|].
  rewrite andb_true_r. rewrite andb_true_r.
  destruct (Qle_bool p d); [reflexivity | exact IH].
Qed.

(** X26: [reset] re-arms every trigger: whatever was active or processed
    before, the first check after a reset returns the first point of the
    array that the car has reached, activated at the time of the call, and
    nothing when the car has reached none; [updateTrack] does the same for
    the new track. *)
Theorem reset_rearms (ty : CheckpointType) (d now : Q) (tm : TrackManager.t)
    (newTrack : Track) :
  fst (TrackManager.check ty d now (TrackManager.reset tm))
  = option_map
      (fun p => {| ctype := ty; cdistance := p; activatedAt := now;
                   duration := pointDuration (TrackManager.track tm) |})
      (find (fun p => Qle_bool p d)
            (TrackManager.pointsOf ty (TrackManager.track tm)))
  /\ fst (TrackManager.check ty d now (TrackManager.updateTrack newTrack tm))
     = option_map
         (fun p => {| ctype := ty; cdistance := p; activatedAt := now;
                      duration := pointDuration newTrack |})
         (find (fun p => Qle_bool p d) (TrackManager.pointsOf ty newTrack)).
Proof.
  split.
  - change (TrackManager.reset tm)
      with (TrackManager.create (TrackManager.track tm)).
    destruct ty; apply checkLoop_fresh.
  - change (TrackManager.updateTrack newTrack tm)
      with (TrackManager.create newTrack).
    destruct ty; apply checkLoop_fresh.
Qed.

(** X27: once every modifier has run its duration, a recompute brings the
    car back to its base speed with no modifier left, whatever the
    modifiers were. *)
Theorem speed_returns_to_base (t : Q) (car : Car) :
  Forall (fun m => mduration m <= t - startTime m) (speedModifiers car) ->
  speedModifiers (CarManager.updateCurrentSpeed t car) = []
  /\ currentSpeed (CarManager.updateCurrentSpeed t car) = baseSpeed car
  /\ CarManager.getActiveModifiers t car = [].
Proof.
  intro Hall.
  assert (Hnone : filter (CarManager.unexpired t) (speedModifiers car) = []).
  { induction (speedModifiers car) as [|m ms IH]; [reflexivity|].
    inversion Hall as [|? ? Hm Hms]; subst. simpl.
    assert (E : CarManager.unexpired t m = false)
      by (apply Qltb_ge; exact Hm).
    rewrite E. apply IH, Hms. }
  unfold CarManager.updateCurrentSpeed, CarManager.getActiveModifiers.
  simpl. rewrite Hnone. repeat split.
Qed.

Lemma speed_returns_to_base_witness :
  currentSpeed (CarManager.updateCurrentSpeed 1000 CarManager.decreaseFirst)
  = baseSpeed CarManager.decreaseFirst.
Proof.
  apply (speed_returns_to_base 1000 CarManager.decreaseFirst).
  repeat constructor; simpl; (vm_compute; discriminate).
Defined.

(** X28: the array validator is the stricter one: a track with positive
    scalars whose two trigger arrays pass [validateCheckpointArray] passes
    [validateTrack]. *)
Theorem checkpoint_arrays_imply_track (track : Track) :
  Validation.positiveScalars track = true ->
  Validation.validateCheckpointArray (brakePoints track) (distance track)
  = Validation.Returns ->
  Validation.validateCheckpointArray (straightPoints track) (distance track)
  = Validation.Returns ->
  Validation.validateTrack track = Validation.Returns.
Proof.
  intros Hpos Hb Hs.
  apply throwsb_false, validateCheckpointArray_iff in Hb.
  apply throwsb_false, validateCheckpointArray_iff in Hs.
  destruct Hb as (_ & Hb1 & Hb2), Hs as (_ & Hs1 & Hs2).
  apply strictlyAscending_iff in Hb2, Hs2.
  apply throwsb_false, validateTrack_iff. tauto.
Qed.

Lemma checkpoint_arrays_imply_track_witness :
  Validation.validateTrack Validation.startLineTrack = Validation.Returns.
Proof.
  apply (checkpoint_arrays_imply_track Validation.startLineTrack);
    reflexivity.
Defined.

(** X29: the window helpers agree with the manager inside the window: when
    a control is active at a time not before the activation of its first
    checkpoint, [isInputWithinWindow] accepts that time and
    [getRemainingWindowTime] is the manager's remaining duration.  At the
    very end of the window the helper still accepts while the manager
    reports the control inactive. *)
Theorem window_helpers_agree
    (k : ControlType) (now : Q) (tm : TrackManager.t) (c : CheckpointEvent) :
  TrackManager.firstOfType (TrackManager.checkpointTypeOf k)
    (TrackManager.activeCheckpoints tm) = Some c ->
  activatedAt c <= now ->
  CheckpointValidation.getRemainingWindowTime now (activatedAt c) (duration c)
  = TrackManager.getRemainingDuration k now tm
  /\ (TrackManager.isControlActive k now tm = true ->
      CheckpointValidation.isInputWithinWindow now (activatedAt c) (duration c)
      = true)
  /\ (now - activatedAt c == duration c ->
      CheckpointValidation.isInputWithinWindow now (activatedAt c) (duration c)
      = true
      /\ TrackManager.isControlActive k now tm = false).
Proof.
  intros Hc Hafter.
  unfold TrackManager.getRemainingDuration, TrackManager.isControlActive,
    CheckpointValidation.getRemainingWindowTime,
    CheckpointValidation.isInputWithinWindow.
  rewrite Hc. split; [reflexivity|].
  assert (H0 : Qle_bool 0 (now - activatedAt c) = true)
    by (apply Qle_bool_iff; lra).
  rewrite H0. cbn [andb]. split.
  - intro Hact. apply Qltb_lt in Hact. apply Qle_bool_iff. lra.
  - intro Hend. split; [apply Qle_bool_iff; lra | apply Qltb_ge; lra].
Qed.

Lemma window_helpers_agree_witness :
  CheckpointValidation.isInputWithinWindow 4000 2000 2000 = true
  /\ TrackManager.isControlActive acceleration 4000
       (UseGameState.trackManager UseGameState.atFirstStraight) = false.
Proof.
  apply (window_helpers_agree acceleration 4000
           (UseGameState.trackManager UseGameState.atFirstStraight)
           {| ctype := straight_point; cdistance := 100; activatedAt := 2000;
              duration := 2000 |}).
  - reflexivity.
  - vm_compute. discriminate.
  - vm_compute. reflexivity.
Defined.

End Further.
